(** * mips_debug: logger, interval timer and MIPS32 stack unwinder

    A shallow embedding of the C sources (log.c, measure.c, timer.c,
    backtrace.c) and the properties the specification states about them.

    Conventions of the embedding.
    - C integers are [Z]; the value stored in a w-bit object is obtained
      with [wrap_unsigned] / [wrap_signed], written where the C code
      computes it.
    - The target ABI is a parameter [ElfClass] (the source tests
      [__ELF_NATIVE_CLASS]): [long], [size_t] and pointers are 32 bits
      wide under [ELFCLASS32] (the MIPS o32 target of the repository) and
      64 bits wide under [ELFCLASS64].
    - A C string is the [string] of its bytes before the terminating NUL;
      [sprintf] returns [String.length] of what it writes and the buffer
      receives one more byte, the NUL.
    - libc formatting ([%d], [%02d], [%lx], [%#lx], [%p]) is modelled after
      ISO C and the GNU / uClibc C libraries the code is built against. *)

From Stdlib Require Import ZArith List String Ascii Bool Lia.
From Stdlib Require Import Numbers.DecimalString.
Import ListNotations.

Local Open Scope string_scope.
Local Open Scope Z_scope.

(** ** Machine integers *)

Inductive ElfClass : Type := ELFCLASS32 | ELFCLASS64.

(** backtrace.c: [# define WORD_WIDTH 8] for the 32-bit class, 16 otherwise. *)
Definition WORD_WIDTH (c : ElfClass) : Z :=
  match c with ELFCLASS32 => 8 | ELFCLASS64 => 16 end.

(** Width in bits of [long], [unsigned long], [size_t] and of a pointer. *)
Definition long_bits (c : ElfClass) : Z :=
  match c with ELFCLASS32 => 32 | ELFCLASS64 => 64 end.

(** [sizeof (char * )]. *)
Definition sizeof_ptr (c : ElfClass) : Z :=
  match c with ELFCLASS32 => 4 | ELFCLASS64 => 8 end.

Definition wrap_unsigned (bits x : Z) : Z := x mod 2 ^ bits.

Definition wrap_signed (bits x : Z) : Z :=
  (x + 2 ^ (bits - 1)) mod 2 ^ bits - 2 ^ (bits - 1).

Definition wrap_ulong (c : ElfClass) (x : Z) : Z := wrap_unsigned (long_bits c) x.
Definition wrap_long (c : ElfClass) (x : Z) : Z := wrap_signed (long_bits c) x.
Definition wrap_int64 (x : Z) : Z := wrap_signed 64 x.

Definition LONG_MAX (c : ElfClass) : Z := 2 ^ (long_bits c - 1) - 1.
Definition LONG_MIN (c : ElfClass) : Z := - 2 ^ (long_bits c - 1).

Definition is_long (c : ElfClass) (x : Z) : Prop := LONG_MIN c <= x <= LONG_MAX c.
Definition is_pointer (c : ElfClass) (x : Z) : Prop := 0 <= x < 2 ^ long_bits c.

(** [(short) x]: the low 16 bits read as a signed number. *)
Definition to_short (x : Z) : Z := wrap_signed 16 x.

(** backtrace.c: [#define ABS(s) ((s) < 0 ? -(s) : (s))]. *)
Definition ABS (s : Z) : Z := if s <? 0 then - s else s.

(** ** printf conversions *)

Definition hex_digit (d : Z) : ascii :=
  match d with
  | 0 => "0" | 1 => "1" | 2 => "2" | 3 => "3" | 4 => "4" | 5 => "5"
  | 6 => "6" | 7 => "7" | 8 => "8" | 9 => "9" | 10 => "a" | 11 => "b"
  | 12 => "c" | 13 => "d" | 14 => "e" | _ => "f"
  end%char.

(** The [n] low hexadecimal digits of [v], most significant first. *)
Fixpoint hex_digits (n : nat) (v : Z) : string :=
  match n with
  | O => EmptyString
  | S k => String (hex_digit (Z.land (Z.shiftr v (4 * Z.of_nat k)) 15))
                  (hex_digits k v)
  end.

(** Number of hexadecimal digits of [v] without leading zeros (1 for 0). *)
Definition hex_width (v : Z) : nat := Z.to_nat (Z.log2 v / 4 + 1).

(** ["%lx"]. *)
Definition fmt_lx (v : Z) : string := hex_digits (hex_width v) v.

(** ["%#lx"]: ISO C prefixes [0x] to a nonzero result only. *)
Definition fmt_alt_lx (v : Z) : string :=
  if v =? 0 then "0" else "0x" ++ fmt_lx v.

(** ["%p"] as the GNU and uClibc libraries print it: [(nil)] for a null
    pointer, otherwise the address as by ["%#lx"]. *)
Definition fmt_p (a : Z) : string :=
  if a =? 0 then "(nil)" else "0x" ++ fmt_lx a.

(** ["%d"]. *)
Definition fmt_d (z : Z) : string := NilZero.string_of_int (Z.to_int z).

(** ["%02d"]: zero padding to a field of two characters. *)
Definition fmt_02d (z : Z) : string :=
  let s := fmt_d z in
  if (String.length s <? 2)%nat then "0" ++ s else s.

(** [strlen]. *)
Definition strlen (s : string) : Z := Z.of_nat (String.length s).

(** Prefix of [s] that fits a buffer of [size] bytes, as [snprintf] leaves
    it ([size - 1] characters at most). *)
Fixpoint take_chars (n : nat) (s : string) : string :=
  match n, s with
  | S k, String ch rest => String ch (take_chars k rest)
  | _, _ => EmptyString
  end.

Definition snprintf_trunc (size : nat) (s : string) : string :=
  take_chars (Nat.pred size) s.

Definition LF : string := String (ascii_of_nat 10) EmptyString.
Definition TAB : string := String (ascii_of_nat 9) EmptyString.

(** ["%-5s"]: left justified in a field of five characters. *)
Fixpoint spaces (n : nat) : string :=
  match n with O => EmptyString | S k => String " "%char (spaces k) end.

Definition fmt_left5 (s : string) : string :=
  s ++ spaces (5 - String.length s).

(** ** log.h, log.c *)

Definition LOG_DISABLED : Z := 0.
Definition LOG_LEVEL_DEBUG : Z := Z.shiftl 1 0.
Definition LOG_LEVEL_INFO : Z := Z.shiftl 1 1.
Definition LOG_LEVEL_WARN : Z := Z.shiftl 1 2.
Definition LOG_LEVEL_ERROR : Z := Z.shiftl 1 3.

Inductive log_sink_t : Type :=
  | LOG_SINK_UNSPECIFIED
  | LOG_SINK_FILE
  | LOG_SINK_SYSLOG.

Definition log_sink_eqb (a b : log_sink_t) : bool :=
  match a, b with
  | LOG_SINK_UNSPECIFIED, LOG_SINK_UNSPECIFIED => true
  | LOG_SINK_FILE, LOG_SINK_FILE => true
  | LOG_SINK_SYSLOG, LOG_SINK_SYSLOG => true
  | _, _ => false
  end.

(** Priorities of <syslog.h>. *)
Definition LOG_ERR : Z := 3.
Definition LOG_WARNING : Z := 4.
Definition LOG_INFO : Z := 6.
Definition LOG_DEBUG : Z := 7.

(** What the logger does to the outside world: text sent to a [FILE]
    (named by its handle) or a message handed to syslog. *)
Inductive log_event : Type :=
  | FileWrite (stream : Z) (text : string)
  | Syslog (priority : Z) (text : string).

(** The file-scope [Config] structure of log.c; [file = None] is the
    NULL stream. *)
Record Config_t : Type := mkConfig {
  ident : string;
  level_mask : Z;
  file : option Z;
  sink : log_sink_t
}.

(** [Config = { "?", LOG_DISABLED, NULL, LOG_SINK_UNSPECIFIED }]. *)
Definition Config_initial : Config_t :=
  mkConfig "?" LOG_DISABLED None LOG_SINK_UNSPECIFIED.

(** The process-wide state the logger touches: its configuration, the
    mutex [cfg_mtx], and the output produced so far (oldest first). *)
Record log_state : Type := mkLogState {
  Config : Config_t;
  cfg_mtx : bool;
  emitted : list log_event
}.

Definition lock (s : log_state) : log_state :=
  mkLogState (Config s) true (emitted s).

Definition unlock (s : log_state) : log_state :=
  mkLogState (Config s) false (emitted s).

Definition emit (s : log_state) (evs : list log_event) : log_state :=
  mkLogState (Config s) (cfg_mtx s) (emitted s ++ evs).

Definition level_labels (i : nat) : string :=
  nth i ["DEBUG"; "INFO"; "WARN"; "ERROR"] "".

Definition get_level_label (level : Z) : string :=
  if level =? LOG_LEVEL_DEBUG then level_labels 0
  else if level =? LOG_LEVEL_INFO then level_labels 1
  else if level =? LOG_LEVEL_WARN then level_labels 2
  else if level =? LOG_LEVEL_ERROR then level_labels 3
  else level_labels 0.

(** [msg] is the expansion of [fmt] with the variadic arguments. *)
Definition log_to_syslog (s : log_state) (level : Z) (src : string) (line : Z)
    (msg : string) : log_state :=
  let priority :=
    if level =? LOG_LEVEL_DEBUG then LOG_DEBUG
    else if level =? LOG_LEVEL_INFO then LOG_INFO
    else if level =? LOG_LEVEL_WARN then LOG_WARNING
    else if level =? LOG_LEVEL_ERROR then LOG_ERR
    else LOG_DEBUG in
  let prefix := snprintf_trunc 64 (src ++ ":" ++ fmt_d line) in
  let text := snprintf_trunc 256 msg in
  emit s [Syslog priority (prefix ++ ": " ++ text)].

(** [time_str] is what [get_time] read from the clock. Called only with
    [Config.file] set; a NULL stream writes nothing here. *)
Definition log_to_file (s : log_state) (time_str : string) (level : Z)
    (src : string) (line : Z) (msg : string) : log_state :=
  match file (Config s) with
  | None => s
  | Some stream =>
      emit s
        [FileWrite stream
           (time_str ++ " [" ++ fmt_left5 (get_level_label level) ++ "] ["
            ++ ident (Config s) ++ "] " ++ src ++ ":" ++ fmt_d line ++ ": ");
         FileWrite stream msg;
         FileWrite stream LF]
  end.

Definition log_log (time_str : string) (s0 : log_state) (level : Z)
    (src : string) (line : Z) (msg : string) : log_state :=
  let s := lock s0 in
  if log_sink_eqb (sink (Config s)) LOG_SINK_UNSPECIFIED
     || (level_mask (Config s) =? LOG_DISABLED)
     || (Z.land (level_mask (Config s)) level =? 0)
  then unlock s
  else
    if log_sink_eqb (sink (Config s)) LOG_SINK_FILE
       && match file (Config s) with None => true | Some _ => false end
    then unlock s
    else
      let s' :=
        match sink (Config s) with
        | LOG_SINK_FILE => log_to_file s time_str level src line msg
        | LOG_SINK_SYSLOG => log_to_syslog s level src line msg
        | LOG_SINK_UNSPECIFIED => s
        end in
      unlock s'.

(** ** measure.h, measure.c *)

(** [struct timespec]; [time_t] has the width of [long]. *)
Record timespec : Type := mkTimespec {
  tv_sec : Z;
  tv_nsec : Z
}.

(** The [struct timespec] objects a call can reach, by location:
    [measure_diff] receives three pointers that may coincide. *)
Definition tstore : Type := nat -> timespec.

Definition set_tv_sec (st : tstore) (p : nat) (v : Z) : tstore :=
  fun q => if Nat.eqb q p then mkTimespec v (tv_nsec (st p)) else st q.

Definition set_tv_nsec (st : tstore) (p : nat) (v : Z) : tstore :=
  fun q => if Nat.eqb q p then mkTimespec (tv_sec (st p)) v else st q.

Definition measure_diff (c : ElfClass) (st : tstore) (start end_ result : nat)
    : tstore :=
  let st1 := set_tv_sec st result
               (wrap_long c (tv_sec (st end_) - tv_sec (st start))) in
  let st2 := set_tv_nsec st1 result
               (wrap_long c (tv_nsec (st1 end_) - tv_nsec (st1 start))) in
  if tv_nsec (st2 result) <? 0 then
    let st3 := set_tv_nsec st2 result
                 (wrap_long c (tv_nsec (st2 result) + 1000000000)) in
    set_tv_sec st3 result (wrap_long c (tv_sec (st3 result) - 1))
  else st2.

(** ** timer.h, timer.c *)

Definition NANOSECONDS_IN_SECOND : Z := 1000000000.
Definition NANOSECONDS_IN_MILLISECOND : Z := 1000000.
Definition MILLISECONDS_IN_SECOND : Z := 1000.

Definition STATUS_VALID : Z := Z.shiftl 1 0.
Definition STATUS_INITIALIZED : Z := Z.shiftl 1 1.

(** [struct timer] without its mutex, which the unlocked functions do not
    use. *)
Record timer : Type := mkTimer {
  status : Z;
  start : timespec;
  deadline : timespec
}.

Definition valid (t : timer) : Z := Z.land (status t) STATUS_VALID.

Definition timespec_cmp (a b : timespec) : Z :=
  if tv_sec a =? tv_sec b then
    if tv_nsec a =? tv_nsec b then 0
    else if tv_nsec a >? tv_nsec b then 1
    else -1
  else if tv_sec a >? tv_sec b then 1
  else -1.

(** The product is computed in [long], the sum in [int64_t]. *)
Definition timespec_to_ms (c : ElfClass) (t : timespec) : Z :=
  let result := wrap_long c (tv_sec t * MILLISECONDS_IN_SECOND) in
  wrap_int64 (result + Z.quot (tv_nsec t) NANOSECONDS_IN_MILLISECOND).

(** Locations of the objects of [timer_remaining] and [timer_elapsed]:
    the local [diff], [timer->start] and [timer->deadline]. *)
Definition loc_diff : nat := 0.
Definition loc_start : nat := 1.
Definition loc_deadline : nat := 2.

Definition timer_store (diff : timespec) (t : timer) : tstore :=
  fun q => match q with
           | O => diff
           | S O => start t
           | _ => deadline t
           end.

(** [now] is what [clock_gettime (CLOCK_MONOTONIC, &diff)] stores. *)
Definition timer_remaining (c : ElfClass) (now : timespec) (t : timer) : Z :=
  if valid t =? 0 then -1
  else
    let st := timer_store now t in
    if timespec_cmp (st loc_diff) (st loc_deadline) >=? 0 then 0
    else
      let st' := measure_diff c st loc_diff loc_deadline loc_diff in
      timespec_to_ms c (st' loc_diff).

Definition timer_elapsed (c : ElfClass) (now : timespec) (t : timer) : Z :=
  if valid t =? 0 then -1
  else
    let st := timer_store now t in
    let st' := measure_diff c st loc_start loc_diff loc_diff in
    timespec_to_ms c (st' loc_diff).

(** A time point in nanoseconds. *)
Definition to_ns (t : timespec) : Z :=
  tv_sec t * NANOSECONDS_IN_SECOND + tv_nsec t.

Definition nsec_normalized (t : timespec) : Prop :=
  0 <= tv_nsec t < NANOSECONDS_IN_SECOND.

(** ** backtrace.c: frame capture *)

(** Process memory seen by the unwinder: the 32-bit word at each address.
    Code, stack and the caller's buffer live in the same memory. Every
    address is readable here; the fault of an access to unmapped memory
    is the matter of the capture over a [mapping], further down. *)
Definition memory : Type := Z -> Z.

Definition addr32 (a : Z) : Z := wrap_unsigned 32 a.

Definition load (m : memory) (a : Z) : Z := wrap_unsigned 32 (m (addr32 a)).

Definition store (m : memory) (a v : Z) : memory :=
  fun x => if x =? addr32 a then v else m x.

(** The first loop: forward over the function's own code, from [addr],
    until a stack adjustment [addiu sp,sp,imm] with a nonzero [imm] or the
    word [jr ra]. The result is [stack_size]; [None] when [fuel] words
    were read without meeting either. *)
Fixpoint scan_forward (fuel : nat) (m : memory) (addr : Z) : option Z :=
  match fuel with
  | O => None
  | S fuel' =>
      let w := load m addr in
      if Z.land w 0xffff0000 =? 0x27bd0000 then
        let stack_size := ABS (to_short (Z.land w 0xffff)) in
        if stack_size =? 0 then scan_forward fuel' m (addr + 4)
        else Some stack_size
      else if w =? 0x03e00008 then Some 0
      else scan_forward fuel' m (addr + 4)
  end.

Inductive scan_result : Type :=
  | ScanFound (ra_offset stack_size : Z)
  | ScanSentinel.

(** The inner loop: backward from [addr] while [!ra_offset || !stack_size];
    [ScanSentinel] is the [return depth + 1] of the [0x3c1c0000] case. *)
Fixpoint scan_backward (fuel : nat) (m : memory) (addr ra_offset stack_size : Z)
    : option scan_result :=
  match fuel with
  | O => None
  | S fuel' =>
      let w := load m addr in
      let next := fun ro ss =>
        if (ro =? 0) || (ss =? 0) then scan_backward fuel' m (addr - 4) ro ss
        else Some (ScanFound ro ss) in
      let hi := Z.land w 0xffff0000 in
      if hi =? 0x27bd0000 then
        next ra_offset (ABS (to_short (Z.land w 0xffff)))
      else if hi =? 0xafbf0000 then
        next (wrap_unsigned 32 (to_short (Z.land w 0xffff))) stack_size
      else if hi =? 0x3c1c0000 then Some ScanSentinel
      else next ra_offset stack_size
  end.

(** Which [return] of [backtrace_mips32] was taken. *)
Inductive stop_reason : Type :=
  | StopArguments   (* size <= 0 || !buffer *)
  | StopFull        (* depth reached size *)
  | StopNullRa      (* ra became null *)
  | StopSentinel.   (* return depth + 1 *)

(** A call either returns a frame count and leaves a memory, or is still
    scanning when the fuel is spent. *)
Inductive capture : Type :=
  | Returned (why : stop_reason) (n : Z) (m : memory)
  | Spinning (m : memory).

(** The outer loop, entered with the current [depth], [ra] and [sp];
    every scan may read [k] words. *)
Fixpoint unwind (k fuel : nat) (m : memory) (buffer size depth ra sp : Z)
    : capture :=
  match fuel with
  | O => Spinning m
  | S fuel' =>
      if (depth <? size) && negb (ra =? 0) then
        let m1 := store m (buffer + 4 * depth) ra in
        match scan_backward k m1 ra 0 0 with
        | None => Spinning m1
        | Some ScanSentinel => Returned StopSentinel (depth + 1) m1
        | Some (ScanFound ra_offset stack_size) =>
            let ra' := load m1 (sp + ra_offset) in
            let sp' := wrap_unsigned 32 (sp + stack_size) in
            unwind k fuel' m1 buffer size (depth + 1) ra' sp'
        end
      else Returned (if depth <? size then StopNullRa else StopFull) depth m
  end.

(** [entry] is the address of the function itself; [ra] and [sp] are the
    registers read by the inline assembly; [buffer = 0] is the null
    pointer. *)
Definition backtrace_mips32 (fuel : nat) (m : memory) (entry ra sp : Z)
    (buffer size : Z) : capture :=
  if (size <=? 0) || (buffer =? 0) then Returned StopArguments 0 m
  else
    match scan_forward fuel m entry with
    | None => Spinning m
    | Some stack_size =>
        unwind fuel fuel m buffer size 0 ra (wrap_unsigned 32 (sp + stack_size))
    end.

(** The slots [buffer[0 .. n-1]]. *)
Definition in_slots (buffer n a : Z) : Prop :=
  exists i, 0 <= i < n /\ a = addr32 (buffer + 4 * i).

(** [m'] differs from [m] in [buffer[0 .. n-1]] at most. *)
Definition same_outside (buffer n : Z) (m m' : memory) : Prop :=
  forall a, ~ in_slots buffer n a -> m' a = m a.

(** ** backtrace.c: symbol formatting *)

(** [Dl_info] of <dlfcn.h>; a NULL string pointer is [None]. *)
Record Dl_info : Type := mkDlInfo {
  dli_fname : option string;
  dli_fbase : Z;
  dli_sname : option string;
  dli_saddr : Z
}.

(** One [dladdr] answer: the returned status and the filled structure. *)
Definition resolution : Type := (Z * Dl_info)%type.

(** [s ?: ""]. *)
Definition or_empty (s : option string) : string :=
  match s with Some x => x | None => "" end.

Definition is_some {A : Type} (o : option A) : bool :=
  match o with Some _ => true | None => false end.

(** [status && dli_fname && dli_fname[0] != '\0']. *)
Definition has_module (r : resolution) : bool :=
  negb (fst r =? 0)
  && match dli_fname (snd r) with
     | Some (String _ _) => true
     | _ => false
     end.

(** The amount the first loop adds to [total] for one address. *)
Definition presize (c : ElfClass) (r : resolution) : Z :=
  if has_module r then
    strlen (or_empty (dli_fname (snd r)))
    + (match dli_sname (snd r) with
       | Some sname => strlen sname + 3 + WORD_WIDTH c + 3
       | None => 1
       end)
    + WORD_WIDTH c + 5
  else 5 + WORD_WIDTH c.

(** [total] after the first loop, a [size_t]. *)
Definition total_presize (c : ElfClass) (infos : list resolution) : Z :=
  fold_left (fun total r => wrap_ulong c (total + presize c r)) infos 0.

(** The local [buf]: the signed offset from the symbol's address. *)
Definition offset_text (c : ElfClass) (a : Z) (info : Dl_info) : string :=
  if a >=? dli_saddr info
  then "+" ++ fmt_alt_lx (wrap_ulong c (a - dli_saddr info))
  else "-" ++ fmt_alt_lx (wrap_ulong c (dli_saddr info - a)).

(** The text one iteration of the write loop prints at [last]. *)
Definition format_line (c : ElfClass) (a : Z) (r : resolution) : string :=
  if has_module r then
    let info := snd r in
    let buf := offset_text c a info in
    or_empty (dli_fname info)
    ++ (if is_some (dli_sname info) then "(" else "")
    ++ or_empty (dli_sname info)
    ++ (if is_some (dli_sname info) then buf else "")
    ++ (if is_some (dli_sname info) then ") " else " ")
    ++ "[" ++ fmt_p a ++ "]"
  else "[" ++ fmt_p a ++ "]".

(** The write loop from the cursor [last]: [result[cnt]] and the string
    stored there for each address, and the cursor after the loop. *)
Fixpoint write_lines (c : ElfClass) (array : list Z) (infos : list resolution)
    (last : Z) : list (Z * string) * Z :=
  match array, infos with
  | a :: array', r :: infos' =>
      let line := format_line c a r in
      let rest := write_lines c array' infos' (last + (1 + strlen line)) in
      ((last, line) :: fst rest, snd rest)
  | _, _ => ([], last)
  end.

Inductive symbols : Type :=
  | NullResult                                         (* malloc failed *)
  | AssertFailed                                       (* the assert aborted *)
  | Symbols (result : Z) (strings : list (Z * string)).

Section Formatter.

(** The dynamic linker and the allocator are the environment. *)
Variable dladdr : Z -> resolution.
Variable malloc : Z -> option Z.

(** [array] holds the [size] addresses. *)
Definition backtrace_symbols (c : ElfClass) (array : list Z) : symbols :=
  let size := Z.of_nat (List.length array) in
  let infos := map dladdr array in
  let total := total_presize c infos in
  let request := wrap_ulong c (size * sizeof_ptr c) in
  match malloc (wrap_ulong c (request + total)) with
  | None => NullResult
  | Some result =>
      let written := write_lines c array infos (result + size * sizeof_ptr c) in
      if snd written <=? result + request + total
      then Symbols result (fst written)
      else AssertFailed
  end.

(** ** backtrace.c: the reporter *)

Variable get_time : log_state -> string.

Definition LOG (s : log_state) (log_level : Z) (src : string) (line : Z)
    (msg : string) : log_state :=
  log_log (get_time s) s log_level src line msg.

(** The local array as handed to the formatter. *)
Definition read_buffer (m : memory) (buffer : Z) (n : nat) : list Z :=
  map (fun i => load m (buffer + 4 * Z.of_nat i)) (seq 0 n).

Definition frame_line (strings : symbols) (m : memory) (buffer : Z) (i : nat)
    : string :=
  match strings with
  | Symbols _ lines =>
      TAB ++ "#" ++ fmt_02d (Z.of_nat i) ++ " " ++ snd (nth i lines (0, ""))
  | _ =>
      TAB ++ "#" ++ fmt_02d (Z.of_nat i) ++ " "
      ++ fmt_p (load m (buffer + 4 * Z.of_nat i))
  end.

(** [src] is [__FILE__]; [buffer] is where the local array lives;
    [None] when the call does not return. *)
Definition print_stack_trace (fuel : nat) (src : string) (m : memory)
    (entry ra sp buffer : Z) (s : log_state) (log_level : Z)
    : option log_state :=
  match backtrace_mips32 fuel m entry ra sp buffer 64 with
  | Spinning _ => None
  | Returned _ nptrs m' =>
      let s1 := LOG s log_level src 26
                  ("Stack trace: " ++ fmt_d nptrs
                   ++ " frames (most recent call first)") in
      let strings :=
        backtrace_symbols ELFCLASS32 (read_buffer m' buffer (Z.to_nat nptrs)) in
      match strings with
      | AssertFailed => None
      | _ =>
          Some (fold_left
                  (fun st i =>
                     LOG st log_level src
                         (match strings with NullResult => 31 | _ => 33 end)
                         (frame_line strings m' buffer i))
                  (seq 0 (Z.to_nat nptrs)) s1)
      end
  end.

End Formatter.

(** The argument of the one [malloc] of [backtrace_symbols]. *)
Definition symbols_request (dladdr : Z -> resolution) (c : ElfClass)
    (array : list Z) : Z :=
  wrap_ulong c
    (wrap_ulong c (Z.of_nat (List.length array) * sizeof_ptr c)
     + total_presize c (map dladdr array)).

(** The sum the first loop would reach without the wrap-around of
    [size_t]. *)
Fixpoint presize_sum (c : ElfClass) (infos : list resolution) : Z :=
  match infos with
  | [] => 0
  | r :: rest => presize c r + presize_sum c rest
  end.

(** The size of the requested block is representable in [size_t]. *)
Definition block_fits (c : ElfClass) (infos : list resolution) : Prop :=
  Z.of_nat (List.length infos) * sizeof_ptr c + presize_sum c infos
  < 2 ^ long_bits c.


(** *** The line grammar of the specification *)

(** [<module-path>(<symbol-name><sign><hex-offset>) [<address>]]. *)
Definition line_with_symbol (path name sign hex address : string) : string :=
  path ++ "(" ++ name ++ sign ++ hex ++ ") [" ++ address ++ "]".

(** [<module-path> [<address>]]. *)
Definition line_with_module (path address : string) : string :=
  path ++ " [" ++ address ++ "]".

(** [[<address>]]. *)
Definition line_bare (address : string) : string :=
  "[" ++ address ++ "]".

(** The module path when [dladdr] succeeded with a non-empty file name. *)
Definition resolved_module (r : resolution) : option string :=
  if fst r =? 0 then None
  else match dli_fname (snd r) with
       | Some EmptyString => None
       | other => other
       end.

(** The line the grammar prescribes for address [a] resolved as [r]. *)
Definition grammar_line (c : ElfClass) (a : Z) (r : resolution) : string :=
  match resolved_module r, dli_sname (snd r) with
  | Some path, Some name =>
      line_with_symbol path name
        (if a >=? dli_saddr (snd r) then "+" else "-")
        (fmt_alt_lx (wrap_ulong c (Z.abs (a - dli_saddr (snd r)))))
        (fmt_p a)
  | Some path, None => line_with_module path (fmt_p a)
  | None, _ => line_bare (fmt_p a)
  end.

(** The offset as the specification words it: [+0x<hex>] at or after the
    base, [-0x<hex>] before it, of the absolute difference. *)
Definition spec_offset_text (a base : Z) : string :=
  if a >=? base then "+0x" ++ fmt_lx (a - base)
  else "-0x" ++ fmt_lx (base - a).

(** The offset policy as amended: the prefix [0x] is absent from a zero
    offset. *)
Definition amended_offset_text (a base : Z) : string :=
  if a >? base then "+0x" ++ fmt_lx (a - base)
  else if a =? base then "+0"
  else "-0x" ++ fmt_lx (base - a).

(** *** Sample environment *)

Definition sample_dladdr (a : Z) : resolution :=
  if a =? 0x44afcc then
    (1, mkDlInfo (Some "./driver_manager") 0x400000
                 (Some "print_stack_trace") 0x44af90)
  else if a =? 0x44af90 then
    (1, mkDlInfo (Some "./driver_manager") 0x400000
                 (Some "print_stack_trace") 0x44af90)
  else if a =? 0x44af00 then
    (1, mkDlInfo (Some "./driver_manager") 0x400000
                 (Some "print_stack_trace") 0x44af90)
  else if a =? 0x2ac7b4d4 then
    (1, mkDlInfo (Some "/lib/libc.so.0") 0x2ac40000 None 0)
  else (0, mkDlInfo None 0 None 0).

Definition sample_array : list Z := [0x44afcc; 0x2ac7b4d4; 0x7fff0000].

Definition malloc_ok (n : Z) : option Z := Some 0x10000000.
Definition malloc_fails (n : Z) : option Z := None.

(** A file name of [n] characters. *)
Fixpoint path_of_length (n : nat) : string :=
  match n with
  | O => EmptyString
  | S k => String "a"%char (path_of_length k)
  end.

(** A [dladdr] that finds every address in one module, whose file name
    has [n] characters, and no symbol. *)
Definition one_module_dladdr (n : nat) (a : Z) : resolution :=
  (1, mkDlInfo (Some (path_of_length n)) 0x400000 None 0).

(** [2^20] return addresses, all into the same function. *)
Definition deep_array : list Z := repeat 0x44afcc (Z.to_nat 1048576).

(** *** Sample memories *)

(** Nothing but zero words: no instruction pattern anywhere. *)
Definition blank_memory : memory := fun _ => 0.

(** [addiu sp,sp,-32] at [0x400000] and zero words elsewhere: a stack
    adjustment, but neither a store of [ra] nor a sentinel. *)
Definition prologue_only_memory : memory :=
  fun a => if a =? 0x400000 then 0x27bdffe0 else 0.

(** A small program at [0x400000 ..], a caller frame on the stack:
    [lui gp], [addiu sp,sp,-32], [sw ra,28(sp)], then the call site; the
    saved return address at [sp + 28] is null. *)
Definition framed_memory : memory :=
  fun a =>
    if a =? 0x400000 then 0x3c1c0000
    else if a =? 0x400004 then 0x27bdffe0
    else if a =? 0x400008 then 0xafbf001c
    else if a =? 0x500000 then 0x27bdffd8
    else if a =? 0x500004 then 0x03e00008
    else 0.

(** *** What the reporter hands to the logger *)

(** The header, with the line of its [LOG] in the source. *)
Definition header_line (nptrs : Z) : Z * string :=
  (26, "Stack trace: " ++ fmt_d nptrs ++ " frames (most recent call first)").

(** The lines of the fallback branch for [buffer[0 .. n-1]]: the frame
    number and the bare address as [%p] prints it. *)
Definition fallback_lines (m : memory) (buffer : Z) (n : nat)
    : list (Z * string) :=
  map (fun i => (31, TAB ++ "#" ++ fmt_02d (Z.of_nat i) ++ " "
                     ++ fmt_p (load m (buffer + 4 * Z.of_nat i))))
      (seq 0 n).

(** One [LOG] per line, in order. *)
Definition LOG_all (get_time : log_state -> string) (s : log_state)
    (log_level : Z) (src : string) (lines : list (Z * string)) : log_state :=
  fold_left (fun st l => LOG get_time st log_level src (fst l) (snd l)) lines s.

(** A logger that writes every level to the stream 2. *)
Definition sample_logger : log_state :=
  mkLogState (mkConfig "dm" 15 (Some 2) LOG_SINK_FILE) false [].

Definition sample_clock (s : log_state) : string := "2007-01-01 00:00:00.000".

(** *** Sample times *)

(** [start] at location 0 is 10.9 s, [end] at location 1 is 12.1 s. *)
Definition sample_tstore : tstore :=
  fun q => match q with
           | O => mkTimespec 10 900000000
           | _ => mkTimespec 12 100000000
           end.



(** ** log.c: configuration *)

(** What [log_set_sink] asks of syslog. *)
Inductive syslog_call : Type :=
  | OpenLog (ident : string) (option_ facility : Z)
  | CloseLog.

(** <syslog.h>. *)
Definition LOG_PID : Z := 1.
Definition LOG_CONS : Z := 2.
Definition LOG_USER : Z := Z.shiftl 1 3.

(** [want_sink] and [want_file] tell which of the two out-pointers are
    non-null; the result carries what each of them receives. *)
Definition log_get_sink (s0 : log_state) (want_sink want_file : bool)
    : log_state * option log_sink_t * option (option Z) :=
  let s := lock s0 in
  let got_sink := if want_sink then Some (sink (Config s)) else None in
  let got_file := if want_file then Some (file (Config s)) else None in
  (unlock s, got_sink, got_file).

Definition log_get_level (s0 : log_state) : log_state * Z :=
  let s := lock s0 in
  let mask := level_mask (Config s) in
  (unlock s, mask).

Definition log_set_sink (s0 : log_state) (new_sink : log_sink_t)
    (new_file : option Z) : log_state * list syslog_call :=
  let s := lock s0 in
  let calls :=
    if log_sink_eqb new_sink LOG_SINK_SYSLOG
       && negb (log_sink_eqb (sink (Config s)) LOG_SINK_SYSLOG)
    then [OpenLog (ident (Config s)) (Z.lor LOG_CONS LOG_PID) LOG_USER]
    else if negb (log_sink_eqb new_sink LOG_SINK_SYSLOG)
            && log_sink_eqb (sink (Config s)) LOG_SINK_SYSLOG
    then [CloseLog]
    else [] in
  (unlock (mkLogState
             (mkConfig (ident (Config s)) (level_mask (Config s))
                       new_file new_sink)
             (cfg_mtx s) (emitted s)),
   calls).

Definition log_set_level (s0 : log_state) (mask : Z) : log_state :=
  let s := lock s0 in
  unlock (mkLogState
            (mkConfig (ident (Config s)) mask (file (Config s))
                      (sink (Config s)))
            (cfg_mtx s) (emitted s)).

Definition log_set_ident (s0 : log_state) (new_ident : string) : log_state :=
  let s := lock s0 in
  unlock (mkLogState
            (mkConfig new_ident (level_mask (Config s)) (file (Config s))
                      (sink (Config s)))
            (cfg_mtx s) (emitted s)).

(** Whether the connection to syslog is open after a run of calls. *)
Definition syslog_open_after (open : bool) (calls : list syslog_call) : bool :=
  fold_left (fun o call => match call with
                           | OpenLog _ _ _ => true
                           | CloseLog => false
                           end) calls open.

(** A run of [log_set_sink] calls: the final state and all syslog calls. *)
Fixpoint log_set_sinks (s : log_state) (settings : list (log_sink_t * option Z))
    : log_state * list syslog_call :=
  match settings with
  | [] => (s, [])
  | (k, f) :: rest =>
      let r1 := log_set_sink s k f in
      let r2 := log_set_sinks (fst r1) rest in
      (fst r2, (snd r1 ++ snd r2)%list)
  end.

(** The events of a run go to the configured sink only. *)
Definition to_configured_sink (cfg : Config_t) (ev : log_event) : Prop :=
  match ev with
  | FileWrite stream _ => sink cfg = LOG_SINK_FILE /\ file cfg = Some stream
  | Syslog _ _ => sink cfg = LOG_SINK_SYSLOG
  end.

(** The logger lets messages of [level] through. *)
Definition log_enabled (cfg : Config_t) (level : Z) : Prop :=
  sink cfg <> LOG_SINK_UNSPECIFIED
  /\ level_mask cfg <> LOG_DISABLED
  /\ Z.land (level_mask cfg) level <> 0.

(** ** measure.c: the stack of starting points *)

Definition ARRAY_SIZE : Z := 16.

(** What reaches the terminal: a [printf] text, or a [perror] with its
    prefix (the text of [errno] follows it). *)
Inductive console_event : Type :=
  | Printf (text : string)
  | Perror (prefix : string).

(** The file-scope state of measure.c and the objects of its callers: the
    locations [0 .. 15] of [times] are the array [start], the others
    belong to callers; [start_ptr]; and the terminal output so far. *)
Record measure_state : Type := mkMeasure {
  times : tstore;
  start_ptr : Z;
  console : list console_event
}.

Definition set_time (st : tstore) (p : nat) (t : timespec) : tstore :=
  fun q => if Nat.eqb q p then t else st q.

(** [clock] is the outcome of [clock_gettime (CLOCK_MONOTONIC, ...)]:
    the time stored on success, [None] on failure (nothing stored). *)
Definition measure_start (clock : option timespec) (ms : measure_state)
    : measure_state :=
  if start_ptr ms >=? ARRAY_SIZE then
    mkMeasure (times ms) (start_ptr ms)
      (console ms
       ++ [Printf ("DM: measure_start(): can't store time: too much calls!"
                   ++ LF)])
  else
    let p := start_ptr ms in
    match clock with
    | Some t =>
        mkMeasure (set_time (times ms) (Z.to_nat p) t) (p + 1) (console ms)
    | None =>
        mkMeasure (times ms) (p + 1)
          (console ms ++ [Perror "DM: measure_start(): clock_gettime()"])
    end.

(** [diff] is the location the argument points to; the result is left
    there. *)
Definition measure_get (c : ElfClass) (clock : option timespec)
    (ms : measure_state) (diff : nat) : measure_state :=
  match clock with
  | None =>
      mkMeasure (times ms) (start_ptr ms)
        (console ms ++ [Perror "DM: measure_get(): clock_gettime()"])
  | Some now =>
      let st := set_time (times ms) diff now in
      let p := if start_ptr ms - 1 <? 0 then 0 else start_ptr ms - 1 in
      mkMeasure (measure_diff c st (Z.to_nat p) diff diff) p (console ms)
  end.

(** ["%09ld"] and the like: zero padding to a field of [width]. *)
Fixpoint zeros (n : nat) : string :=
  match n with O => EmptyString | S k => String "0"%char (zeros k) end.

Definition fmt_0wd (width : nat) (z : Z) : string :=
  let digits := fmt_d (Z.abs z) in
  if z <? 0 then "-" ++ zeros (width - 1 - String.length digits) ++ digits
  else zeros (width - String.length digits) ++ digits.

(** [is_log_available] of measure.c. *)
Definition is_log_available (s : log_state) : log_state * bool :=
  let r1 := log_get_sink s true false in
  let r2 := log_get_level (fst (fst r1)) in
  (fst r2,
   negb (snd r2 =? LOG_DISABLED)
   && negb (match snd (fst r1) with
            | Some k => log_sink_eqb k LOG_SINK_UNSPECIFIED
            | None => false
            end)).

(** The location of the local [diff] of [measure_print]. *)
Definition loc_print_diff : nat := 16.

Definition measure_print (c : ElfClass) (get_time : log_state -> string)
    (clock : option timespec) (ms : measure_state) (s : log_state)
    (comment : string) : measure_state * log_state :=
  let ms1 := measure_get c clock ms loc_print_diff in
  let diff := times ms1 loc_print_diff in
  let avail := is_log_available s in
  let text := comment ++ " took " ++ fmt_d (tv_sec diff) ++ "."
              ++ fmt_0wd 9 (tv_nsec diff) ++ " seconds" in
  if snd avail then
    (ms1, LOG get_time (fst avail) LOG_LEVEL_DEBUG "measure.c" 59 text)
  else
    (mkMeasure (times ms1) (start_ptr ms1)
       (console ms1 ++ [Printf ("DM: " ++ text ++ LF)]),
     fst avail).

(** The stack pointer stays inside the array. *)
Definition start_ptr_ok (ms : measure_state) : Prop :=
  0 <= start_ptr ms <= ARRAY_SIZE.

(** A run of calls of the two stack operations. *)
Inductive measure_op : Type :=
  | OpStart (clock : option timespec)
  | OpGet (clock : option timespec) (diff : nat).

Definition measure_step (c : ElfClass) (ms : measure_state) (op : measure_op)
    : measure_state :=
  match op with
  | OpStart clock => measure_start clock ms
  | OpGet clock diff => measure_get c clock ms diff
  end.

(** The state at program start: zeroed statics, nothing printed. *)
Definition measure_initial : measure_state :=
  mkMeasure (fun _ => mkTimespec 0 0) 0 [].

(** ** timer.c: setting, querying, locking *)

Definition valid_set (t : timer) : timer :=
  mkTimer (Z.lor (status t) STATUS_VALID) (start t) (deadline t).

Definition valid_unset (t : timer) : timer :=
  mkTimer (Z.land (status t) (Z.lnot STATUS_VALID)) (start t) (deadline t).

Definition initialized_set (t : timer) : timer :=
  mkTimer (Z.lor (status t) STATUS_INITIALIZED) (start t) (deadline t).

Definition initialized (t : timer) : Z := Z.land (status t) STATUS_INITIALIZED.

(** [LOGW] and [LOGE] of log.h, from timer.c. *)
Definition LOGW (get_time : log_state -> string) (s : log_state) (line : Z)
    (msg : string) : log_state :=
  LOG get_time s LOG_LEVEL_WARN "timer.c" line msg.

Definition LOGE (get_time : log_state -> string) (s : log_state) (line : Z)
    (msg : string) : log_state :=
  LOG get_time s LOG_LEVEL_ERROR "timer.c" line msg.

(** [clock] is the outcome of [clock_gettime], whose status [timer_set]
    ignores; on failure [timer->start] keeps its value. The quotient and
    the remainder of [msec] are computed in [int64_t] and stored into
    [long] fields. *)
Definition timer_set (c : ElfClass) (get_time : log_state -> string)
    (clock : option timespec) (s : log_state) (t : timer) (msec : Z)
    : timer * log_state :=
  if msec <? 0 then
    (valid_unset t,
     LOGE get_time s 48
       ("timer_set" ++ "(): negative time interval: " ++ fmt_d msec))
  else
    let start' := match clock with Some now => now | None => start t end in
    let sec :=
      wrap_long c
        (wrap_int64 (tv_sec start' + Z.quot msec MILLISECONDS_IN_SECOND)) in
    let nsec :=
      wrap_long c
        (wrap_int64
           (tv_nsec start'
            + wrap_int64 (Z.rem msec MILLISECONDS_IN_SECOND
                          * NANOSECONDS_IN_MILLISECOND))) in
    let deadline' :=
      if nsec >=? NANOSECONDS_IN_SECOND
      then mkTimespec (wrap_long c (sec + 1))
                      (wrap_long c (nsec - NANOSECONDS_IN_SECOND))
      else mkTimespec sec nsec in
    (valid_set (mkTimer (status t) start' deadline'), s).

Definition timer_expired (now : timespec) (t : timer) : Z :=
  if valid t =? 0 then -1
  else if timespec_cmp now (deadline t) >=? 0 then 1 else 0.

Definition timer_valid (t : timer) : Z := if valid t =? 0 then 0 else 1.

Definition timer_invalidate (t : timer) : timer := valid_unset t.

(** A [pthread_mutex_t]. *)
Inductive mutex_t : Type := MutexUninitialized | MutexFree | MutexHeld.

(** [struct timer] with its mutex. *)
Record locked_timer : Type := mkLockedTimer {
  timer_data : timer;
  timer_lock : mutex_t
}.

(** [TIMER_INITIALIZER]. *)
Definition TIMER_INITIALIZER : locked_timer :=
  mkLockedTimer (mkTimer (Z.shiftl 1 1) (mkTimespec 0 0) (mkTimespec 0 0))
                MutexFree.

Definition pthread_mutex_lock (lt : locked_timer) : locked_timer :=
  mkLockedTimer (timer_data lt) MutexHeld.

Definition pthread_mutex_unlock (lt : locked_timer) : locked_timer :=
  mkLockedTimer (timer_data lt) MutexFree.

Definition timer_init (get_time : log_state -> string) (s : log_state)
    (lt : locked_timer) : locked_timer * log_state :=
  if initialized (timer_data lt) =? 0 then
    let t0 := mkTimer 0 (start (timer_data lt)) (deadline (timer_data lt)) in
    (mkLockedTimer (initialized_set t0) MutexFree, s)
  else
    (lt, LOGW get_time s 26
           ("timer_init" ++ "(): timer is already initialized")).

Definition timer_destroy (get_time : log_state -> string) (s : log_state)
    (lt : locked_timer) : locked_timer * log_state :=
  if initialized (timer_data lt) =? 0 then
    (lt, LOGW get_time s 37
           ("timer_destroy" ++ "(): timer is already deinitialized"))
  else
    (mkLockedTimer
       (mkTimer 0 (start (timer_data lt)) (deadline (timer_data lt)))
       MutexUninitialized,
     s).

Definition cant_lock (name : string) : string :=
  name ++ "(): timer isn't initialized! Can't lock!".

Definition timer_set_locked (c : ElfClass) (get_time : log_state -> string)
    (clock : option timespec) (s : log_state) (lt : locked_timer) (msec : Z)
    : locked_timer * log_state :=
  if initialized (timer_data lt) =? 0 then
    (lt, LOGE get_time s 115 (cant_lock "timer_set_locked"))
  else
    let lt1 := pthread_mutex_lock lt in
    let r := timer_set c get_time clock s (timer_data lt1) msec in
    (pthread_mutex_unlock (mkLockedTimer (fst r) (timer_lock lt1)), snd r).

Definition timer_remaining_locked (c : ElfClass)
    (get_time : log_state -> string) (now : timespec) (s : log_state)
    (lt : locked_timer) : locked_timer * log_state * Z :=
  if initialized (timer_data lt) =? 0 then
    (lt, LOGE get_time s 126 (cant_lock "timer_remaining_locked"), -1)
  else
    let lt1 := pthread_mutex_lock lt in
    let result := timer_remaining c now (timer_data lt1) in
    (pthread_mutex_unlock lt1, s, result).

Definition timer_elapsed_locked (c : ElfClass)
    (get_time : log_state -> string) (now : timespec) (s : log_state)
    (lt : locked_timer) : locked_timer * log_state * Z :=
  if initialized (timer_data lt) =? 0 then
    (lt, LOGE get_time s 139 (cant_lock "timer_elapsed_locked"), -1)
  else
    let lt1 := pthread_mutex_lock lt in
    let result := timer_elapsed c now (timer_data lt1) in
    (pthread_mutex_unlock lt1, s, result).

Definition timer_expired_locked (get_time : log_state -> string)
    (now : timespec) (s : log_state) (lt : locked_timer)
    : locked_timer * log_state * Z :=
  if initialized (timer_data lt) =? 0 then
    (lt, LOGE get_time s 152 (cant_lock "timer_expired_locked"), -1)
  else
    let lt1 := pthread_mutex_lock lt in
    let result := timer_expired now (timer_data lt1) in
    (pthread_mutex_unlock lt1, s, result).

Definition timer_valid_locked (get_time : log_state -> string)
    (s : log_state) (lt : locked_timer) : locked_timer * log_state * Z :=
  if initialized (timer_data lt) =? 0 then
    (lt, LOGE get_time s 165 (cant_lock "timer_valid_locked"), -1)
  else
    let lt1 := pthread_mutex_lock lt in
    let result := timer_valid (timer_data lt1) in
    (pthread_mutex_unlock lt1, s, result).

Definition timer_invalidate_locked (get_time : log_state -> string)
    (s : log_state) (lt : locked_timer) : locked_timer * log_state :=
  if initialized (timer_data lt) =? 0 then
    (lt, LOGE get_time s 178 (cant_lock "timer_invalidate_locked"))
  else
    let lt1 := pthread_mutex_lock lt in
    (pthread_mutex_unlock
       (mkLockedTimer (timer_invalidate (timer_data lt1)) (timer_lock lt1)),
     s).

(** ** backtrace.c: what a successful report hands to the logger *)


(** A chain of callers as the unwinder reads it: from the return address
    [ra] with the stack pointer [sp], the backward scan meets the frame
    size and the slot of the saved return address, that slot holds the
    next return address, and so on along [callers]. Scans and slots are
    read in any memory that differs from [m0] inside the buffer only. *)
Fixpoint call_chain (m0 : memory) (buffer size : Z) (k : nat) (ra sp : Z)
    (callers : list Z) : Prop :=
  match callers with
  | [] => True
  | ra' :: rest =>
      exists ra_offset stack_size,
        (forall m, same_outside buffer size m0 m ->
           scan_backward k m ra 0 0 = Some (ScanFound ra_offset stack_size)
           /\ load m (sp + ra_offset) = ra')
        /\ call_chain m0 buffer size k ra' (wrap_unsigned 32 (sp + stack_size))
             rest
  end.

(** [framed_memory] with a caller: the slot of the saved return address,
    [0x7ffe0044], holds [0x400104], where a [lui gp] stands. *)
Definition chain_memory : memory :=
  fun a =>
    if a =? 0x400104 then 0x3c1c0000
    else if a =? 0x7ffe0044 then 0x400104
    else framed_memory a.

(** ** backtrace.c: frame capture in a process with unmapped memory *)

(** The addresses the process may access. A read or a write elsewhere
    ends the process with a fault. *)
Definition mapping : Type := Z -> bool.

(** What becomes of a loop that reads memory: it is left with a value,
    the process faults, or the loop is still going when the fuel is
    spent. *)
Inductive access (A : Type) : Type :=
  | Done (a : A)
  | Fault
  | Pending.

Arguments Done {A} a.
Arguments Fault {A}.
Arguments Pending {A}.

(** The first loop of [backtrace_mips32], each word read through the
    mapping. *)
Fixpoint scan_forward_mapped (mapped : mapping) (fuel : nat) (m : memory)
    (addr : Z) : access Z :=
  match fuel with
  | O => Pending
  | S fuel' =>
      if mapped (addr32 addr) then
        let w := load m addr in
        if Z.land w 0xffff0000 =? 0x27bd0000 then
          let stack_size := ABS (to_short (Z.land w 0xffff)) in
          if stack_size =? 0 then scan_forward_mapped mapped fuel' m (addr + 4)
          else Done stack_size
        else if w =? 0x03e00008 then Done 0
        else scan_forward_mapped mapped fuel' m (addr + 4)
      else Fault
  end.

(** The inner loop, each word read through the mapping. *)
Fixpoint scan_backward_mapped (mapped : mapping) (fuel : nat) (m : memory)
    (addr ra_offset stack_size : Z) : access scan_result :=
  match fuel with
  | O => Pending
  | S fuel' =>
      if mapped (addr32 addr) then
        let w := load m addr in
        let next := fun ro ss =>
          if (ro =? 0) || (ss =? 0)
          then scan_backward_mapped mapped fuel' m (addr - 4) ro ss
          else Done (ScanFound ro ss) in
        let hi := Z.land w 0xffff0000 in
        if hi =? 0x27bd0000 then
          next ra_offset (ABS (to_short (Z.land w 0xffff)))
        else if hi =? 0xafbf0000 then
          next (wrap_unsigned 32 (to_short (Z.land w 0xffff))) stack_size
        else if hi =? 0x3c1c0000 then Done ScanSentinel
        else next ra_offset stack_size
      else Fault
  end.

(** The outer loop: the write of [buffer[depth]], the scan and the read
    of the saved return address go through the mapping. *)
Fixpoint unwind_mapped (mapped : mapping) (k fuel : nat) (m : memory)
    (buffer size depth ra sp : Z) : access (stop_reason * Z * memory) :=
  match fuel with
  | O => Pending
  | S fuel' =>
      if (depth <? size) && negb (ra =? 0) then
        if mapped (addr32 (buffer + 4 * depth)) then
          let m1 := store m (buffer + 4 * depth) ra in
          match scan_backward_mapped mapped k m1 ra 0 0 with
          | Pending => Pending
          | Fault => Fault
          | Done ScanSentinel => Done (StopSentinel, depth + 1, m1)
          | Done (ScanFound ra_offset stack_size) =>
              if mapped (addr32 (sp + ra_offset)) then
                let ra' := load m1 (sp + ra_offset) in
                let sp' := wrap_unsigned 32 (sp + stack_size) in
                unwind_mapped mapped k fuel' m1 buffer size (depth + 1) ra' sp'
              else Fault
          end
        else Fault
      else Done (if depth <? size then StopNullRa else StopFull, depth, m)
  end.

Definition backtrace_mips32_mapped (mapped : mapping) (fuel : nat) (m : memory)
    (entry ra sp : Z) (buffer size : Z) : access (stop_reason * Z * memory) :=
  if (size <=? 0) || (buffer =? 0) then Done (StopArguments, 0, m)
  else
    match scan_forward_mapped mapped fuel m entry with
    | Pending => Pending
    | Fault => Fault
    | Done stack_size =>
        unwind_mapped mapped fuel fuel m buffer size 0 ra
          (wrap_unsigned 32 (sp + stack_size))
    end.

(** The states in which a call enters its outer loop: the first, with the
    registers of the caller, and the one each completed iteration leads
    to. *)
Inductive loop_entered (mapped : mapping) (buffer size : Z) (m0 : memory)
    (ra0 sp0 : Z) : memory -> Z -> Z -> Z -> Prop :=
  | entered_first : loop_entered mapped buffer size m0 ra0 sp0 m0 0 ra0 sp0
  | entered_next (m : memory) (depth ra sp : Z) (k : nat)
      (ra_offset stack_size : Z) :
      loop_entered mapped buffer size m0 ra0 sp0 m depth ra sp ->
      (depth <? size) && negb (ra =? 0) = true ->
      mapped (addr32 (buffer + 4 * depth)) = true ->
      scan_backward_mapped mapped k (store m (buffer + 4 * depth) ra) ra 0 0
      = Done (ScanFound ra_offset stack_size) ->
      mapped (addr32 (sp + ra_offset)) = true ->
      loop_entered mapped buffer size m0 ra0 sp0
        (store m (buffer + 4 * depth) ra) (depth + 1)
        (load (store m (buffer + 4 * depth) ra) (sp + ra_offset))
        (wrap_unsigned 32 (sp + stack_size)).

(** Every iteration the call begins goes through: [buffer[depth]] is
    writable, the backward scan from the return address meets both of its
    patterns or the sentinel on mapped words, and the slot of the saved
    return address is readable. *)
Definition iterations_complete (mapped : mapping) (buffer size : Z)
    (m0 : memory) (ra0 sp0 : Z) : Prop :=
  forall m depth ra sp,
    loop_entered mapped buffer size m0 ra0 sp0 m depth ra sp ->
    (depth <? size) && negb (ra =? 0) = true ->
    mapped (addr32 (buffer + 4 * depth)) = true
    /\ exists k r,
         scan_backward_mapped mapped k (store m (buffer + 4 * depth) ra) ra 0 0
         = Done r
         /\ match r with
            | ScanFound ra_offset _ => mapped (addr32 (sp + ra_offset)) = true
            | ScanSentinel => True
            end.

(** Code between [0x400000] and [0x600000], the stack and the buffer
    between [0x7ffe0000] and [0x80000000]. *)
Definition sample_mapping : mapping :=
  fun a => ((0x400000 <=? a) && (a <? 0x600000))
           || ((0x7ffe0000 <=? a) && (a <? 0x80000000)).

(** * Properties *)

(** ** Formatting *)

Lemma strlen_append (s t : string) : strlen (s ++ t) = strlen s + strlen t.
Proof.
  unfold strlen. induction s as [|ch s IH]; simpl String.length.
  - lia.
  - simpl in IH. lia.
Qed.

Lemma strlen_nonneg (s : string) : 0 <= strlen s.
Proof. unfold strlen. lia. Qed.

Lemma hex_digits_length (n : nat) (v : Z) : String.length (hex_digits n v) = n.
Proof. induction n as [|n IH]; simpl; congruence. Qed.

Lemma long_bits_word_width (c : ElfClass) : long_bits c = 4 * WORD_WIDTH c.
Proof. destruct c; reflexivity. Qed.

Lemma hex_width_bound (c : ElfClass) (v : Z) :
  is_pointer c v -> Z.of_nat (hex_width v) <= WORD_WIDTH c.
Proof.
  unfold is_pointer, hex_width. intros [Hlo Hhi].
  assert (Hww : 0 < WORD_WIDTH c) by (destruct c; reflexivity).
  assert (Hlog : Z.log2 v < 4 * WORD_WIDTH c).
  { destruct (Z.eq_dec v 0) as [->|Hnz].
    - change (Z.log2 0) with 0. lia.
    - apply Z.log2_lt_pow2; [lia|]. rewrite <- long_bits_word_width. exact Hhi. }
  pose proof (Z.log2_nonneg v) as Hnn.
  assert (Z.log2 v / 4 < WORD_WIDTH c)
    by (apply Z.div_lt_upper_bound; lia).
  assert (0 <= Z.log2 v / 4) by (apply Z.div_pos; lia).
  lia.
Qed.

Lemma fmt_lx_length (c : ElfClass) (v : Z) :
  is_pointer c v -> strlen (fmt_lx v) <= WORD_WIDTH c.
Proof.
  intros H. unfold strlen, fmt_lx. rewrite hex_digits_length.
  now apply hex_width_bound.
Qed.

Lemma fmt_p_length (c : ElfClass) (a : Z) :
  is_pointer c a -> strlen (fmt_p a) <= 2 + WORD_WIDTH c.
Proof.
  intros H. unfold fmt_p. destruct (a =? 0).
  - destruct c; cbv; discriminate.
  - rewrite strlen_append. pose proof (fmt_lx_length c a H).
    change (strlen "0x") with 2. lia.
Qed.

Lemma wrap_ulong_pointer (c : ElfClass) (x : Z) : is_pointer c (wrap_ulong c x).
Proof.
  unfold is_pointer, wrap_ulong, wrap_unsigned.
  apply Z.mod_pos_bound. destruct c; reflexivity.
Qed.

Lemma fmt_alt_lx_length (c : ElfClass) (x : Z) :
  strlen (fmt_alt_lx (wrap_ulong c x)) <= 2 + WORD_WIDTH c.
Proof.
  unfold fmt_alt_lx. destruct (wrap_ulong c x =? 0).
  - destruct c; cbv; discriminate.
  - rewrite strlen_append.
    pose proof (fmt_lx_length c _ (wrap_ulong_pointer c x)).
    change (strlen "0x") with 2. lia.
Qed.

Lemma offset_text_length (c : ElfClass) (a : Z) (info : Dl_info) :
  strlen (offset_text c a info) <= 3 + WORD_WIDTH c.
Proof.
  unfold offset_text. destruct (a >=? dli_saddr info);
    rewrite strlen_append;
    match goal with
    | |- context [fmt_alt_lx (wrap_ulong c ?x)] =>
        pose proof (fmt_alt_lx_length c x)
    end;
    match goal with
    | |- context [strlen ?sign + _] => change (strlen sign) with 1
    end; lia.
Qed.

(** The local [char buf[20]] holds the offset and its NUL. *)
Lemma offset_text_fits_buf (c : ElfClass) (a : Z) (info : Dl_info) :
  strlen (offset_text c a info) + 1 <= 20.
Proof.
  pose proof (offset_text_length c a info). destruct c; simpl in *; lia.
Qed.

(** One iteration of the write loop advances the cursor by no more than
    the first loop reserved for that address. *)
Lemma format_line_fits (c : ElfClass) (a : Z) (r : resolution) :
  is_pointer c a -> 1 + strlen (format_line c a r) <= presize c r.
Proof.
  intros Ha. pose proof (fmt_p_length c a Ha) as Hp.
  unfold format_line, presize. destruct (has_module r).
  - pose proof (offset_text_length c a (snd r)) as Ho.
    destruct (dli_sname (snd r)) as [sname|]; simpl is_some; cbv iota;
      repeat rewrite strlen_append; simpl or_empty.
    + change (strlen "(") with 1. change (strlen ") ") with 2.
      change (strlen "[") with 1. change (strlen "]") with 1. lia.
    + change (strlen "") with 0. change (strlen " ") with 1.
      change (strlen "[") with 1. change (strlen "]") with 1. lia.
  - repeat rewrite strlen_append.
    change (strlen "[") with 1. change (strlen "]") with 1. lia.
Qed.

(** ** The pre-sized block *)

Lemma presize_pos (c : ElfClass) (r : resolution) : 0 < presize c r.
Proof.
  unfold presize. destruct (has_module r).
  - pose proof (strlen_nonneg (or_empty (dli_fname (snd r)))).
    destruct (dli_sname (snd r)) as [sname|];
      [pose proof (strlen_nonneg sname)|]; destruct c; simpl WORD_WIDTH; lia.
  - destruct c; simpl; lia.
Qed.

Lemma presize_sum_nonneg (c : ElfClass) (infos : list resolution) :
  0 <= presize_sum c infos.
Proof.
  induction infos as [|r infos IH]; simpl; [lia|].
  pose proof (presize_pos c r). lia.
Qed.

Lemma total_presize_from (c : ElfClass) (infos : list resolution) (acc : Z) :
  0 <= acc ->
  acc + presize_sum c infos < 2 ^ long_bits c ->
  fold_left (fun total r => wrap_ulong c (total + presize c r)) infos acc
  = acc + presize_sum c infos.
Proof.
  revert acc. induction infos as [|r infos IH]; intros acc Hacc Hfit; simpl.
  - lia.
  - simpl in Hfit.
    pose proof (presize_pos c r) as Hr.
    pose proof (presize_sum_nonneg c infos) as Hs.
    assert (Hw : wrap_ulong c (acc + presize c r) = acc + presize c r).
    { unfold wrap_ulong, wrap_unsigned. apply Z.mod_small. lia. }
    rewrite Hw, IH; lia.
Qed.

Lemma total_presize_exact (c : ElfClass) (infos : list resolution) :
  block_fits c infos -> total_presize c infos = presize_sum c infos.
Proof.
  unfold block_fits, total_presize. intros Hfit.
  assert (0 <= Z.of_nat (List.length infos) * sizeof_ptr c)
    by (destruct c; simpl; lia).
  rewrite total_presize_from; lia.
Qed.

Lemma request_exact (c : ElfClass) (infos : list resolution) :
  block_fits c infos ->
  wrap_ulong c (Z.of_nat (List.length infos) * sizeof_ptr c)
  = Z.of_nat (List.length infos) * sizeof_ptr c.
Proof.
  unfold block_fits. intros Hfit.
  pose proof (presize_sum_nonneg c infos).
  assert (0 <= Z.of_nat (List.length infos) * sizeof_ptr c)
    by (destruct c; simpl; lia).
  unfold wrap_ulong, wrap_unsigned. apply Z.mod_small. lia.
Qed.

(** The cursor after the write loop, against the exact sum of the
    per-address reservations. *)
Lemma write_lines_cursor (c : ElfClass) (dladdr : Z -> resolution)
    (array : list Z) (last : Z) :
  Forall (is_pointer c) array ->
  snd (write_lines c array (map dladdr array) last)
  <= last + presize_sum c (map dladdr array).
Proof.
  intros Hptr. revert last.
  induction Hptr as [|a array Ha _ IH]; intros last;
    cbn [write_lines map snd fst presize_sum].
  - lia.
  - pose proof (format_line_fits c a (dladdr a) Ha).
    specialize (IH (last + (1 + strlen (format_line c a (dladdr a))))). lia.
Qed.

Lemma assert_holds (c : ElfClass) (dladdr : Z -> resolution)
    (array : list Z) (result : Z) :
  Forall (is_pointer c) array ->
  block_fits c (map dladdr array) ->
  snd (write_lines c array (map dladdr array)
         (result + Z.of_nat (List.length array) * sizeof_ptr c))
  <= result + wrap_ulong c (Z.of_nat (List.length array) * sizeof_ptr c)
     + total_presize c (map dladdr array).
Proof.
  intros Hptr Hfit.
  rewrite (total_presize_exact c _ Hfit).
  pose proof (request_exact c _ Hfit) as Hreq.
  rewrite length_map in Hreq. rewrite Hreq.
  apply write_lines_cursor. exact Hptr.
Qed.



(** *** The pre-sized block at the limit of [size_t] *)

Lemma wrap_ulong_add_l (c : ElfClass) (x y : Z) :
  wrap_ulong c (wrap_ulong c x + y) = wrap_ulong c (x + y).
Proof. unfold wrap_ulong, wrap_unsigned. apply Zplus_mod_idemp_l. Qed.

Lemma total_presize_repeat_from (c : ElfClass) (r : resolution) (n : nat)
    (acc : Z) :
  fold_left (fun total r0 => wrap_ulong c (total + presize c r0)) (repeat r n)
    (wrap_ulong c acc)
  = wrap_ulong c (acc + Z.of_nat n * presize c r).
Proof.
  revert acc. induction n as [|n IH]; intros acc.
  - cbn [repeat fold_left]. f_equal. lia.
  - cbn [repeat fold_left]. rewrite wrap_ulong_add_l, IH. f_equal. lia.
Qed.

(** [total] after the first loop over [n] addresses resolved alike. *)
Lemma total_presize_repeat (c : ElfClass) (r : resolution) (n : nat) :
  total_presize c (repeat r n) = wrap_ulong c (Z.of_nat n * presize c r).
Proof.
  unfold total_presize.
  replace 0 with (wrap_ulong c 0) at 1 by (destruct c; reflexivity).
  rewrite total_presize_repeat_from. f_equal.
Qed.

(** The cursor after the write loop over [n] equal addresses. *)
Lemma write_lines_repeat (c : ElfClass) (a : Z) (r : resolution) (n : nat)
    (last : Z) :
  snd (write_lines c (repeat a n) (repeat r n) last)
  = last + Z.of_nat n * (1 + strlen (format_line c a r)).
Proof.
  revert last. induction n as [|n IH]; intros last.
  - cbn [repeat write_lines snd]. lia.
  - cbn [repeat write_lines snd fst]. rewrite IH. lia.
Qed.

Lemma repeat_length_Z {A : Type} (x : A) (k : Z) :
  0 <= k -> Z.of_nat (List.length (repeat x (Z.to_nat k))) = k.
Proof. intros Hk. rewrite repeat_length. now apply Z2Nat.id. Qed.

Lemma repeat_total (c : ElfClass) (dladdr : Z -> resolution) (a k : Z) :
  0 <= k ->
  total_presize c (map dladdr (repeat a (Z.to_nat k)))
  = wrap_ulong c (k * presize c (dladdr a)).
Proof.
  intros Hk. rewrite map_repeat, total_presize_repeat.
  now rewrite Z2Nat.id.
Qed.

Lemma repeat_cursor (c : ElfClass) (dladdr : Z -> resolution) (a k last : Z) :
  0 <= k ->
  snd (write_lines c (repeat a (Z.to_nat k))
         (map dladdr (repeat a (Z.to_nat k))) last)
  = last + k * (1 + strlen (format_line c a (dladdr a))).
Proof.
  intros Hk. rewrite map_repeat, write_lines_repeat.
  now rewrite Z2Nat.id.
Qed.


(** What the first loop reserves for an address of [deep_array], and the
    length of its line, for file names of 4095 and of 4078 characters. *)
Lemma long_path_sizes :
  presize ELFCLASS32 (one_module_dladdr 4095 0x44afcc) = 4109
  /\ strlen (format_line ELFCLASS32 0x44afcc (one_module_dladdr 4095 0x44afcc))
     = 4106
  /\ presize ELFCLASS32 (one_module_dladdr 4078 0x44afcc) = 4092
  /\ strlen (format_line ELFCLASS32 0x44afcc (one_module_dladdr 4078 0x44afcc))
     = 4089.
Proof. vm_compute. repeat split. Qed.



(** With file names of 4078 characters [total] does not wrap, but the
    size of the block does: [malloc] is asked for 0 bytes, the assertion
    holds, and the cursor ends [2^32] bytes behind the block. *)
Example request_wraps_to_zero :
  symbols_request (one_module_dladdr 4078) ELFCLASS32 deep_array = 0
  /\ snd (write_lines ELFCLASS32 deep_array
            (map (one_module_dladdr 4078) deep_array)
            (0x10000000
             + Z.of_nat (List.length deep_array) * sizeof_ptr ELFCLASS32))
     = 0x10000000 + 4292870144
  /\ backtrace_symbols (one_module_dladdr 4078) malloc_ok ELFCLASS32 deep_array
     <> AssertFailed.
Proof.
  assert (Hcursor :
            snd (write_lines ELFCLASS32 deep_array
                   (map (one_module_dladdr 4078) deep_array)
                   (0x10000000
                    + Z.of_nat (List.length deep_array)
                      * sizeof_ptr ELFCLASS32))
            = 0x10000000 + 4292870144).
  { unfold deep_array. rewrite repeat_cursor, repeat_length_Z by lia.
    destruct long_path_sizes as (_ & _ & _ & ->). reflexivity. }
  assert (Htotal :
            total_presize ELFCLASS32 (map (one_module_dladdr 4078) deep_array)
            = 4290772992).
  { unfold deep_array. rewrite repeat_total by lia.
    destruct long_path_sizes as (_ & _ & -> & _). reflexivity. }
  assert (Hlen : Z.of_nat (List.length deep_array) = 1048576)
    by (unfold deep_array; apply repeat_length_Z; lia).
  split; [|split].
  - unfold symbols_request. rewrite Htotal, Hlen. reflexivity.
  - exact Hcursor.
  - unfold backtrace_symbols, malloc_ok. rewrite Hcursor, Htotal, Hlen.
    cbn. discriminate.
Qed.



(** ** The lines *)




Lemma write_lines_nth (c : ElfClass) (dladdr : Z -> resolution)
    (array : list Z) (last : Z) (i : nat) (a : Z) :
  nth_error array i = Some a ->
  exists ptr,
    nth_error (fst (write_lines c array (map dladdr array) last)) i
    = Some (ptr, format_line c a (dladdr a)).
Proof.
  revert last i. induction array as [|b array IH]; intros last i Hnth.
  - destruct i; discriminate.
  - destruct i as [|i]; cbn [write_lines map fst snd nth_error] in *.
    + injection Hnth as ->. now exists last.
    + now apply IH.
Qed.


Lemma backtrace_symbols_inv (c : ElfClass) (dladdr : Z -> resolution)
    (malloc : Z -> option Z) (array : list Z) (result : Z)
    (strings : list (Z * string)) :
  backtrace_symbols dladdr malloc c array = Symbols result strings ->
  strings = fst (write_lines c array (map dladdr array)
                   (result + Z.of_nat (List.length array) * sizeof_ptr c)).
Proof.
  unfold backtrace_symbols. destruct (malloc _) as [res|]; [|discriminate].
  destruct (_ <=? _); [|discriminate].
  intros H. injection H as <- <-. reflexivity.
Qed.



Lemma has_module_resolved (r : resolution) :
  resolved_module r
  = if has_module r then dli_fname (snd r) else None.
Proof.
  unfold resolved_module, has_module.
  destruct (fst r =? 0); simpl; [reflexivity|].
  destruct (dli_fname (snd r)) as [[|ch path]|]; reflexivity.
Qed.

Lemma has_module_path (r : resolution) :
  has_module r = true -> exists path, dli_fname (snd r) = Some path.
Proof.
  unfold has_module. destruct (dli_fname (snd r)) as [path|].
  - intros _. now exists path.
  - rewrite andb_false_r. discriminate.
Qed.

Lemma wrap_ulong_abs (c : ElfClass) (a base : Z) :
  wrap_ulong c (Z.abs (a - base))
  = if a >=? base then wrap_ulong c (a - base) else wrap_ulong c (base - a).
Proof.
  destruct (a >=? base) eqn:Hge; f_equal; lia.
Qed.

(** The write loop prints the line of the grammar. *)
Lemma format_line_grammar (c : ElfClass) (a : Z) (r : resolution) :
  format_line c a r = grammar_line c a r.
Proof.
  unfold format_line, grammar_line. rewrite has_module_resolved.
  destruct (has_module r) eqn:Hmod; [|reflexivity].
  destruct (has_module_path r Hmod) as [path ->]. cbn [or_empty].
  destruct (dli_sname (snd r)) as [name|]; cbn [is_some or_empty].
  - unfold line_with_symbol, offset_text. rewrite wrap_ulong_abs.
    destruct (a >=? dli_saddr (snd r)); reflexivity.
  - reflexivity.
Qed.

(** C6. Every string of a returned block is the line the grammar
    prescribes for its address: [<module-path>(<symbol-name><sign>
    <hex-offset>) [<address>]] when module and symbol name resolve,
    [<module-path> [<address>]] when only the module does, and
    [[<address>]] otherwise. *)
Theorem lines_follow_grammar (c : ElfClass) (dladdr : Z -> resolution)
    (malloc : Z -> option Z) (array : list Z) (result : Z)
    (strings : list (Z * string)) :
  backtrace_symbols dladdr malloc c array = Symbols result strings ->
  forall i a, nth_error array i = Some a ->
    exists ptr,
      nth_error strings i = Some (ptr, grammar_line c a (dladdr a))
      /\ match resolved_module (dladdr a), dli_sname (snd (dladdr a)) with
         | Some path, Some name =>
             exists sign hex,
               (sign = "+" \/ sign = "-")
               /\ hex = fmt_alt_lx
                          (wrap_ulong c (Z.abs (a - dli_saddr (snd (dladdr a)))))
               /\ grammar_line c a (dladdr a)
                  = line_with_symbol path name sign hex (fmt_p a)
         | Some path, None =>
             grammar_line c a (dladdr a) = line_with_module path (fmt_p a)
         | None, _ => grammar_line c a (dladdr a) = line_bare (fmt_p a)
         end.
Proof.
  intros Hret i a Hnth.
  apply backtrace_symbols_inv in Hret. subst strings.
  destruct (write_lines_nth c dladdr array
              (result + Z.of_nat (List.length array) * sizeof_ptr c) i a Hnth)
    as [ptr Hptr].
  exists ptr. rewrite format_line_grammar in Hptr. split; [exact Hptr|].
  unfold grammar_line.
  destruct (resolved_module (dladdr a)) as [path|]; [|reflexivity].
  destruct (dli_sname (snd (dladdr a))) as [name|]; [|reflexivity].
  eexists _, _. split; [|split; reflexivity].
  destruct (a >=? dli_saddr (snd (dladdr a))); [now left|now right].
Qed.

(** ** The offset *)

Lemma fmt_alt_lx_nonzero (v : Z) : v <> 0 -> fmt_alt_lx v = "0x" ++ fmt_lx v.
Proof.
  intros Hv. unfold fmt_alt_lx. destruct (Z.eqb_spec v 0); congruence.
Qed.

Lemma wrap_ulong_small (c : ElfClass) (x : Z) :
  is_pointer c x -> wrap_ulong c x = x.
Proof. intros H. apply Z.mod_small. exact H. Qed.

Lemma offset_text_amended (c : ElfClass) (a : Z) (info : Dl_info) :
  is_pointer c a -> is_pointer c (dli_saddr info) ->
  offset_text c a info = amended_offset_text a (dli_saddr info).
Proof.
  unfold is_pointer, offset_text, amended_offset_text.
  set (base := dli_saddr info). intros Ha Hb.
  destruct (Z.gtb_spec a base) as [Hgt|Hle].
  - destruct (Z.geb_spec a base); [|lia].
    rewrite wrap_ulong_small by (unfold is_pointer; lia).
    rewrite fmt_alt_lx_nonzero by lia. reflexivity.
  - destruct (Z.eqb_spec a base) as [->|Hne].
    + destruct (Z.geb_spec base base); [|lia].
      rewrite Z.sub_diag. destruct c; reflexivity.
    + destruct (Z.geb_spec a base); [lia|].
      rewrite wrap_ulong_small by (unfold is_pointer; lia).
      rewrite fmt_alt_lx_nonzero by lia. reflexivity.
Qed.

(** C5, as the specification words it, fails at the base address itself:
    [%#lx] prints a zero offset as [0], without the [0x] prefix. *)
Lemma offset_at_base_counterexample :
  format_line ELFCLASS32 0x44af90 (sample_dladdr 0x44af90)
  = "./driver_manager(print_stack_trace+0) [0x44af90]"
  /\ ~ (forall (c : ElfClass) (a : Z) (info : Dl_info),
          is_pointer c a -> is_pointer c (dli_saddr info) ->
          offset_text c a info = spec_offset_text a (dli_saddr info)).
Proof.
  split; [reflexivity|].
  intros H.
  specialize (H ELFCLASS32 0x44af90 (snd (sample_dladdr 0x44af90))).
  assert (Hp : is_pointer ELFCLASS32 0x44af90) by (cbv; split; congruence).
  specialize (H Hp Hp). vm_compute in H. discriminate H.
Qed.

(** C5, amended. For an address whose module and symbol name resolve,
    the line carries [<symbol-name>+0x<hex>] when the address lies after
    the symbol's address, [<symbol-name>+0] when it is exactly there, and
    [<symbol-name>-0x<hex>] when it lies before, [<hex>] being the
    absolute difference in bytes; [k > 0] bytes after the base give
    [+0x<k in hex>]. *)
Theorem offset_sign_and_magnitude (c : ElfClass) (a : Z) (r : resolution)
    (path name : string) :
  is_pointer c a ->
  is_pointer c (dli_saddr (snd r)) ->
  resolved_module r = Some path ->
  dli_sname (snd r) = Some name ->
  format_line c a r
  = path ++ "(" ++ name ++ amended_offset_text a (dli_saddr (snd r))
    ++ ") [" ++ fmt_p a ++ "]"
  /\ (forall k, 0 < k -> a = dli_saddr (snd r) + k ->
        amended_offset_text a (dli_saddr (snd r)) = "+0x" ++ fmt_lx k)
  /\ (a = dli_saddr (snd r) -> amended_offset_text a (dli_saddr (snd r)) = "+0")
  /\ (forall k, 0 < k -> a = dli_saddr (snd r) - k ->
        amended_offset_text a (dli_saddr (snd r)) = "-0x" ++ fmt_lx k).
Proof.
  intros Ha Hb Hmod Hname. split; [|split; [|split]].
  - rewrite has_module_resolved in Hmod.
    unfold format_line.
    destruct (has_module r); [|discriminate].
    rewrite Hmod, Hname. cbn [or_empty is_some].
    rewrite (offset_text_amended c a (snd r) Ha Hb).
    reflexivity.
  - intros k Hk ->. unfold amended_offset_text.
    destruct (Z.gtb_spec (dli_saddr (snd r) + k) (dli_saddr (snd r))); [|lia].
    do 2 f_equal. lia.
  - intros ->. unfold amended_offset_text.
    destruct (Z.gtb_spec (dli_saddr (snd r)) (dli_saddr (snd r))); [lia|].
    now rewrite Z.eqb_refl.
  - intros k Hk ->. unfold amended_offset_text.
    destruct (Z.gtb_spec (dli_saddr (snd r) - k) (dli_saddr (snd r))); [lia|].
    destruct (Z.eqb_spec (dli_saddr (snd r) - k) (dli_saddr (snd r))); [lia|].
    do 2 f_equal. lia.
Qed.

(** ** Frame capture: arguments and bounds *)

(** C7. With [size <= 0] or a null buffer the call returns zero frames at
    once, whatever the fuel, and the memory it leaves is the memory it
    was given. *)
Theorem capture_rejects_arguments (fuel : nat) (m : memory)
    (entry ra sp buffer size : Z) :
  size <= 0 \/ buffer = 0 ->
  backtrace_mips32 fuel m entry ra sp buffer size = Returned StopArguments 0 m.
Proof.
  intros Hbad. unfold backtrace_mips32.
  assert (Hcond : (size <=? 0) || (buffer =? 0) = true).
  { apply orb_true_iff. destruct Hbad as [Hs| ->].
    - left. now apply Z.leb_le.
    - right. reflexivity. }
  now rewrite Hcond.
Qed.

Lemma same_outside_refl (buffer n : Z) (m : memory) : same_outside buffer n m m.
Proof. intros a _. reflexivity. Qed.

Lemma same_outside_weaken (buffer n n' : Z) (m m' : memory) :
  n <= n' -> same_outside buffer n m m' -> same_outside buffer n' m m'.
Proof.
  intros Hle Hsame a Hout. apply Hsame.
  intros [i [Hi Ha]]. apply Hout. exists i. split; [lia|exact Ha].
Qed.

(** Storing [buffer[depth]] touches slot [depth] only. *)
Lemma same_outside_store (buffer depth : Z) (m0 m : memory) (v : Z) :
  0 <= depth ->
  same_outside buffer depth m0 m ->
  same_outside buffer (depth + 1) m0 (store m (buffer + 4 * depth) v).
Proof.
  intros Hd Hsame a Hout. unfold store.
  destruct (Z.eqb_spec a (addr32 (buffer + 4 * depth))) as [Heq|Hne].
  - exfalso. apply Hout. exists depth. split; [lia|exact Heq].
  - apply Hsame. intros [i [Hi Ha]]. apply Hout.
    exists i. split; [lia|exact Ha].
Qed.

(** What holds of the outer loop entered at [depth] with a memory that
    differs from the initial one in the first [depth] slots only. *)
Lemma unwind_invariant (k fuel : nat) (m0 m : memory)
    (buffer size depth ra sp : Z) :
  0 <= depth <= size ->
  same_outside buffer depth m0 m ->
  match unwind k fuel m buffer size depth ra sp with
  | Returned why n m' =>
      depth <= n <= size /\ same_outside buffer n m0 m'
      /\ why <> StopArguments
      /\ (why = StopFull -> n = size)
      /\ (why = StopNullRa -> n < size)
      /\ (why = StopSentinel -> depth < n)
  | Spinning m' => same_outside buffer size m0 m'
  end.
Proof.
  revert m depth ra sp.
  induction fuel as [|fuel IH]; intros m depth ra sp Hd Hsame; simpl.
  - apply (same_outside_weaken buffer depth); [lia|exact Hsame].
  - destruct (Z.ltb_spec depth size) as [Hlt|Hge]; simpl.
    + destruct (ra =? 0); simpl.
      * repeat split; try lia; try exact Hsame; discriminate.
      * pose proof (same_outside_store buffer depth m0 m ra (proj1 Hd) Hsame)
          as Hstore.
        destruct (scan_backward k _ ra 0 0) as [[ro ss|]|].
        -- specialize (IH (store m (buffer + 4 * depth) ra) (depth + 1)
                         (load (store m (buffer + 4 * depth) ra) (sp + ro))
                         (wrap_unsigned 32 (sp + ss))).
           destruct (unwind k fuel _ buffer size (depth + 1) _ _)
             as [why n m'|m'].
           ++ destruct IH as (Hn & Hs & Hw & Hf & Hr & Hsen);
                [lia|exact Hstore|].
              repeat split; try lia; try assumption;
                try (intros Heq; specialize (Hsen Heq); lia).
           ++ apply IH; [lia|exact Hstore].
        -- repeat split; try lia; try exact Hstore; discriminate.
        -- apply (same_outside_weaken buffer (depth + 1)); [lia|exact Hstore].
    + repeat split; try lia; try exact Hsame; try discriminate.
Qed.

(** C2. For every memory, buffer address and [size], whether the call
    returns or is still scanning: the memory differs from the initial one
    in at most the first [max (size, 0)] slots of the buffer; a returned
    count [n] satisfies [0 <= n <= max (size, 0)] and only the first [n]
    slots were written; the count [depth + 1] of the sentinel return is
    within [size] as well. *)
Theorem capture_bounded (fuel : nat) (m : memory) (entry ra sp buffer size : Z) :
  match backtrace_mips32 fuel m entry ra sp buffer size with
  | Returned why n m' =>
      0 <= n <= Z.max size 0
      /\ same_outside buffer n m m'
      /\ (why = StopSentinel -> 0 < n <= size)
  | Spinning m' => same_outside buffer (Z.max size 0) m m'
  end.
Proof.
  unfold backtrace_mips32.
  destruct (Z.leb_spec size 0) as [Hs|Hs]; simpl.
  - split; [lia|]. split; [apply same_outside_refl|congruence].
  - destruct (buffer =? 0); simpl.
    + split; [lia|]. split; [apply same_outside_refl|congruence].
    + destruct (scan_forward fuel m entry) as [stack_size|].
      * pose proof (unwind_invariant fuel fuel m m buffer size 0 ra
                      (wrap_unsigned 32 (sp + stack_size))) as Hinv.
        destruct (unwind fuel fuel m buffer size 0 ra _) as [why n m'|m'].
        -- destruct Hinv as (Hn & Hsame & _ & _ & _ & Hsen);
             [lia|apply same_outside_refl|].
           split; [lia|]. split; [exact Hsame|].
           intros Heq. specialize (Hsen Heq). lia.
        -- rewrite Z.max_l by lia. apply Hinv; [lia|apply same_outside_refl].
      * apply same_outside_refl.
Qed.

(** ** Frame capture: termination *)

Lemma scan_forward_mono (k k' : nat) (m : memory) (addr s : Z) :
  scan_forward k m addr = Some s -> (k <= k')%nat ->
  scan_forward k' m addr = Some s.
Proof.
  revert k' addr. induction k as [|k IH]; intros k' addr Hk Hle;
    [discriminate|].
  destruct k' as [|k']; [lia|]. simpl in *.
  destruct (Z.land (load m addr) 0xffff0000 =? 0x27bd0000).
  - destruct (ABS (to_short (Z.land (load m addr) 0xffff)) =? 0);
      [apply IH; [exact Hk|lia]|exact Hk].
  - destruct (load m addr =? 0x03e00008); [exact Hk|apply IH; [exact Hk|lia]].
Qed.

Lemma scan_backward_mono (k k' : nat) (m : memory) (addr ro ss : Z)
    (r : scan_result) :
  scan_backward k m addr ro ss = Some r -> (k <= k')%nat ->
  scan_backward k' m addr ro ss = Some r.
Proof.
  revert k' addr ro ss. induction k as [|k IH]; intros k' addr ro ss Hk Hle;
    [discriminate|].
  destruct k' as [|k']; [lia|]. simpl in *.
  repeat match goal with
         | H : context [if ?b then _ else _] |- _ => destruct b
         end;
    solve [exact Hk | apply IH; [exact Hk|lia]].
Qed.

Lemma unwind_mono (k k' fuel fuel' : nat) (m : memory)
    (buffer size depth ra sp : Z) (why : stop_reason) (n : Z) (m' : memory) :
  unwind k fuel m buffer size depth ra sp = Returned why n m' ->
  (k <= k')%nat -> (fuel <= fuel')%nat ->
  unwind k' fuel' m buffer size depth ra sp = Returned why n m'.
Proof.
  revert fuel' m depth ra sp.
  induction fuel as [|fuel IH]; intros fuel' m depth ra sp Hret Hk Hf;
    [discriminate|].
  destruct fuel' as [|fuel']; [lia|]. simpl in *.
  destruct ((depth <? size) && negb (ra =? 0)); [|exact Hret].
  destruct (scan_backward k _ ra 0 0) as [r|] eqn:Hscan; [|discriminate].
  rewrite (scan_backward_mono k k' _ _ _ _ r Hscan Hk).
  destruct r as [ro ss|]; [|exact Hret].
  apply IH; [exact Hret|exact Hk|lia].
Qed.

(** *** Mapped memory *)

Lemma scan_forward_mapped_mono (mapped : mapping) (k k' : nat) (m : memory)
    (addr s : Z) :
  scan_forward_mapped mapped k m addr = Done s -> (k <= k')%nat ->
  scan_forward_mapped mapped k' m addr = Done s.
Proof.
  revert k' addr. induction k as [|k IH]; intros k' addr Hk Hle;
    [discriminate|].
  destruct k' as [|k']; [lia|]. simpl in *.
  destruct (mapped (addr32 addr)); [|discriminate].
  destruct (Z.land (load m addr) 0xffff0000 =? 0x27bd0000).
  - destruct (ABS (to_short (Z.land (load m addr) 0xffff)) =? 0);
      [apply IH; [exact Hk|lia]|exact Hk].
  - destruct (load m addr =? 0x03e00008); [exact Hk|apply IH; [exact Hk|lia]].
Qed.

Lemma scan_backward_mapped_mono (mapped : mapping) (k k' : nat) (m : memory)
    (addr ro ss : Z) (r : scan_result) :
  scan_backward_mapped mapped k m addr ro ss = Done r -> (k <= k')%nat ->
  scan_backward_mapped mapped k' m addr ro ss = Done r.
Proof.
  revert k' addr ro ss. induction k as [|k IH]; intros k' addr ro ss Hk Hle;
    [discriminate|].
  destruct k' as [|k']; [lia|]. simpl in *.
  destruct (mapped (addr32 addr)); [|discriminate].
  repeat match goal with
         | H : context [if ?b then _ else _] |- _ => destruct b
         end;
    solve [exact Hk | apply IH; [exact Hk|lia]].
Qed.

(** A scan has one result, whatever the fuel that suffices. *)
Lemma scan_backward_mapped_unique (mapped : mapping) (k k' : nat) (m : memory)
    (addr ro ss : Z) (r r' : scan_result) :
  scan_backward_mapped mapped k m addr ro ss = Done r ->
  scan_backward_mapped mapped k' m addr ro ss = Done r' ->
  r = r'.
Proof.
  intros H H'.
  apply (scan_backward_mapped_mono _ _ (Nat.max k k')) in H;
    [|apply Nat.le_max_l].
  apply (scan_backward_mapped_mono _ _ (Nat.max k k')) in H';
    [|apply Nat.le_max_r].
  congruence.
Qed.

Lemma unwind_mapped_mono (mapped : mapping) (k k' fuel fuel' : nat)
    (m : memory) (buffer size depth ra sp : Z)
    (res : stop_reason * Z * memory) :
  unwind_mapped mapped k fuel m buffer size depth ra sp = Done res ->
  (k <= k')%nat -> (fuel <= fuel')%nat ->
  unwind_mapped mapped k' fuel' m buffer size depth ra sp = Done res.
Proof.
  revert fuel' m depth ra sp.
  induction fuel as [|fuel IH]; intros fuel' m depth ra sp Hret Hk Hf;
    [discriminate|].
  destruct fuel' as [|fuel']; [lia|]. cbn [unwind_mapped] in *.
  destruct ((depth <? size) && negb (ra =? 0)); [|exact Hret].
  destruct (mapped (addr32 (buffer + 4 * depth))); [|discriminate].
  destruct (scan_backward_mapped mapped k _ ra 0 0) as [r| |] eqn:Hscan;
    try discriminate.
  rewrite (scan_backward_mapped_mono mapped k k' _ _ _ _ r Hscan Hk).
  destruct r as [ro ss|]; [|exact Hret].
  destruct (mapped (addr32 (sp + ro))); [|discriminate].
  apply IH; [exact Hret|exact Hk|lia].
Qed.

(** A loop that goes through on mapped words is the loop over the memory
    read at large. *)
Lemma scan_forward_mapped_agrees (mapped : mapping) (k : nat) (m : memory)
    (addr s : Z) :
  scan_forward_mapped mapped k m addr = Done s ->
  scan_forward k m addr = Some s.
Proof.
  revert addr. induction k as [|k IH]; intros addr Hk; [discriminate|].
  simpl in *. destruct (mapped (addr32 addr)); [|discriminate].
  destruct (Z.land (load m addr) 0xffff0000 =? 0x27bd0000).
  - destruct (ABS (to_short (Z.land (load m addr) 0xffff)) =? 0);
      [now apply IH|congruence].
  - destruct (load m addr =? 0x03e00008); [congruence|now apply IH].
Qed.

Lemma scan_backward_mapped_agrees (mapped : mapping) (k : nat) (m : memory)
    (addr ro ss : Z) (r : scan_result) :
  scan_backward_mapped mapped k m addr ro ss = Done r ->
  scan_backward k m addr ro ss = Some r.
Proof.
  revert addr ro ss. induction k as [|k IH]; intros addr ro ss Hk;
    [discriminate|].
  simpl in *. destruct (mapped (addr32 addr)); [|discriminate].
  repeat match goal with
         | H : context [if ?b then _ else _] |- _ => destruct b
         end;
    solve [congruence | now apply IH].
Qed.

Lemma unwind_mapped_agrees (mapped : mapping) (k fuel : nat) (m : memory)
    (buffer size depth ra sp : Z) (why : stop_reason) (n : Z) (m' : memory) :
  unwind_mapped mapped k fuel m buffer size depth ra sp = Done (why, n, m') ->
  unwind k fuel m buffer size depth ra sp = Returned why n m'.
Proof.
  revert m depth ra sp.
  induction fuel as [|fuel IH]; intros m depth ra sp Hret; [discriminate|].
  cbn [unwind_mapped unwind] in *.
  destruct ((depth <? size) && negb (ra =? 0)); [|congruence].
  destruct (mapped (addr32 (buffer + 4 * depth))); [|discriminate].
  destruct (scan_backward_mapped mapped k _ ra 0 0) as [r| |] eqn:Hscan;
    try discriminate.
  rewrite (scan_backward_mapped_agrees mapped k _ _ _ _ r Hscan).
  destruct r as [ro ss|]; [|congruence].
  destruct (mapped (addr32 (sp + ro))); [|discriminate].
  now apply IH.
Qed.

Lemma backtrace_mips32_mapped_agrees (mapped : mapping) (fuel : nat)
    (m : memory) (entry ra sp buffer size : Z) (why : stop_reason) (n : Z)
    (m' : memory) :
  backtrace_mips32_mapped mapped fuel m entry ra sp buffer size
  = Done (why, n, m') ->
  backtrace_mips32 fuel m entry ra sp buffer size = Returned why n m'.
Proof.
  unfold backtrace_mips32_mapped, backtrace_mips32.
  destruct ((size <=? 0) || (buffer =? 0)); [congruence|].
  destruct (scan_forward_mapped mapped fuel m entry) as [s| |] eqn:Hfwd;
    try discriminate.
  rewrite (scan_forward_mapped_agrees mapped fuel m entry s Hfwd).
  apply unwind_mapped_agrees.
Qed.

Section Termination.

Variables (mapped : mapping) (m0 : memory) (buffer size ra0 sp0 : Z).

Hypothesis complete : iterations_complete mapped buffer size m0 ra0 sp0.

(** The outer loop returns from every state the call enters it in: each
    iteration that goes on raises [depth], which [size] bounds. *)
Lemma unwind_mapped_terminates (todo : nat) (m : memory) (depth ra sp : Z) :
  size - depth <= Z.of_nat todo ->
  loop_entered mapped buffer size m0 ra0 sp0 m depth ra sp ->
  exists k fuel res,
    unwind_mapped mapped k fuel m buffer size depth ra sp = Done res.
Proof.
  revert m depth ra sp.
  induction todo as [|todo IH]; intros m depth ra sp Htodo Hin.
  - exists O, 1%nat. cbn [unwind_mapped].
    destruct (Z.ltb_spec depth size); [lia|]. cbn [andb]. eauto.
  - destruct ((depth <? size) && negb (ra =? 0)) eqn:Hcond.
    + destruct (complete m depth ra sp Hin Hcond) as (Hslot & k1 & r & Hscan & Hra).
      destruct r as [ro ss|].
      * destruct (IH (store m (buffer + 4 * depth) ra) (depth + 1)
                     (load (store m (buffer + 4 * depth) ra) (sp + ro))
                     (wrap_unsigned 32 (sp + ss)))
          as (k2 & f2 & res & Hrest).
        -- lia.
        -- now apply (entered_next _ _ _ _ _ _ m depth ra sp k1 ro ss).
        -- exists (Nat.max k1 k2), (S f2), res.
           cbn [unwind_mapped]. rewrite Hcond, Hslot.
           rewrite (scan_backward_mapped_mono mapped k1 _ _ _ _ _ _ Hscan
                      (Nat.le_max_l k1 k2)).
           rewrite Hra.
           apply (unwind_mapped_mono mapped k2 _ f2 _ _ _ _ _ _ _ _ Hrest);
             [apply Nat.le_max_r|lia].
      * exists k1, 1%nat. eexists. cbn [unwind_mapped].
        rewrite Hcond, Hslot, Hscan. reflexivity.
    + exists O, 1%nat. cbn [unwind_mapped]. rewrite Hcond. eauto.
Qed.

End Termination.

Lemma scan_forward_blank (fuel : nat) (addr : Z) :
  scan_forward fuel blank_memory addr = None.
Proof.
  revert addr. induction fuel as [|fuel IH]; intros addr; [reflexivity|].
  cbn [scan_forward]. change (load blank_memory addr) with 0.
  cbn. apply IH.
Qed.

(** A backward scan that never reads a store of [ra] nor a sentinel
    keeps [ra_offset] null and goes on. *)
Lemma scan_backward_starves (m : memory) :
  (forall a, Z.land (load m a) 0xffff0000 <> 0xafbf0000
             /\ Z.land (load m a) 0xffff0000 <> 0x3c1c0000) ->
  forall fuel addr ss, scan_backward fuel m addr 0 ss = None.
Proof.
  intros Hwords. induction fuel as [|fuel IH]; intros addr ss; [reflexivity|].
  cbn [scan_backward]. destruct (Hwords addr) as [Hsw Hlui].
  destruct (Z.eqb_spec (Z.land (load m addr) 0xffff0000) 0x27bd0000);
    [apply IH|].
  destruct (Z.eqb_spec (Z.land (load m addr) 0xffff0000) 0xafbf0000);
    [contradiction|].
  destruct (Z.eqb_spec (Z.land (load m addr) 0xffff0000) 0x3c1c0000);
    [contradiction|].
  apply IH.
Qed.

Lemma prologue_only_words (v : Z) (a : Z) :
  Z.land v 0xffff0000 <> 0xafbf0000 ->
  Z.land v 0xffff0000 <> 0x3c1c0000 ->
  0 <= v < 2 ^ 32 ->
  Z.land (load (store prologue_only_memory 0x7fff0000 v) a) 0xffff0000
    <> 0xafbf0000
  /\ Z.land (load (store prologue_only_memory 0x7fff0000 v) a) 0xffff0000
    <> 0x3c1c0000.
Proof.
  intros Hsw Hlui Hv. unfold load, store, prologue_only_memory.
  destruct (addr32 a =? addr32 0x7fff0000).
  - unfold wrap_unsigned. rewrite Z.mod_small by exact Hv. now split.
  - destruct (addr32 a =? 0x400000); split; cbv; discriminate.
Qed.

(** In a memory without instruction patterns the forward scan never
    stops; in one with a stack adjustment but neither a store of [ra] nor
    a sentinel the first backward scan never stops. No amount of fuel
    makes the call return. *)
Lemma scans_without_patterns :
  ~ (exists fuel why n m',
       backtrace_mips32 fuel blank_memory 0x400000 0x400100 0x7ffe0000
         0x7fff0000 4 = Returned why n m')
  /\ ~ (exists fuel why n m',
          backtrace_mips32 fuel prologue_only_memory 0x400000 0x400100
            0x7ffe0000 0x7fff0000 4 = Returned why n m').
Proof.
  split; intros (fuel & why & n & m' & Hret); unfold backtrace_mips32 in Hret;
    cbn [Z.leb Z.eqb Z.compare orb] in Hret.
  - rewrite scan_forward_blank in Hret. discriminate.
  - destruct (scan_forward fuel prologue_only_memory 0x400000); [|discriminate].
    destruct fuel as [|fuel]; [discriminate|].
    cbn [unwind] in Hret.
    change ((0 <? 4) && negb (0x400100 =? 0)) with true in Hret.
    cbn iota in Hret. change (0x7fff0000 + 4 * 0) with 0x7fff0000 in Hret.
    rewrite scan_backward_starves in Hret; [discriminate|].
    intros a. apply prologue_only_words; cbv; intuition congruence.
Qed.

(** C3, as the specification words it, fails: the scans have no bound of
    their own. Whatever part of the address space is mapped, in a memory
    without instruction patterns the forward scan goes on until it
    faults, or for ever; in a memory with a stack adjustment but neither
    a store of [ra] nor a sentinel so does the first backward scan. The
    call returns for no amount of fuel, also when every address is
    readable. *)
Lemma capture_hangs_counterexample :
  ~ (exists mapped fuel res,
       backtrace_mips32_mapped mapped fuel blank_memory 0x400000 0x400100
         0x7ffe0000 0x7fff0000 4 = Done res)
  /\ ~ (exists mapped fuel res,
          backtrace_mips32_mapped mapped fuel prologue_only_memory 0x400000
            0x400100 0x7ffe0000 0x7fff0000 4 = Done res)
  /\ ~ (exists fuel why n m',
          backtrace_mips32 fuel blank_memory 0x400000 0x400100 0x7ffe0000
            0x7fff0000 4 = Returned why n m')
  /\ ~ (exists fuel why n m',
          backtrace_mips32 fuel prologue_only_memory 0x400000 0x400100
            0x7ffe0000 0x7fff0000 4 = Returned why n m').
Proof.
  destruct scans_without_patterns as [Hblank Hprologue].
  split; [|split; [|split]].
  - intros (mapped & fuel & [[why n] m'] & Hret). apply Hblank.
    exists fuel, why, n, m'.
    now apply (backtrace_mips32_mapped_agrees mapped).
  - intros (mapped & fuel & [[why n] m'] & Hret). apply Hprologue.
    exists fuel, why, n, m'.
    now apply (backtrace_mips32_mapped_agrees mapped).
  - exact Hblank.
  - exact Hprologue.
Qed.

(** C3, amended. The call returns, with every larger fuel as well, as
    soon as its scans stop on mapped words: the forward scan from [entry]
    meets a stack adjustment with a nonzero immediate or [jr ra], and in
    every iteration the call begins [buffer[depth]] is writable, the
    backward scan from the return address meets both of its patterns or
    the sentinel, and the slot of the saved return address is readable.
    It returns for one of four reasons: the arguments were rejected (no
    scan is made then) and the count is 0; [size] addresses were
    collected; the return address became null after fewer than [size]; or
    a backward scan met the sentinel, the count being
    [depth + 1 <= size]. The outcome is that of the capture over the
    memory read at large. *)
Theorem capture_terminates (mapped : mapping) (m : memory)
    (entry ra sp buffer size : Z) :
  (0 < size -> buffer <> 0 ->
   exists k s,
     scan_forward_mapped mapped k m entry = Done s
     /\ iterations_complete mapped buffer size m ra
          (wrap_unsigned 32 (sp + s))) ->
  exists fuel why n m',
    (forall fuel', (fuel <= fuel')%nat ->
       backtrace_mips32_mapped mapped fuel' m entry ra sp buffer size
       = Done (why, n, m')
       /\ backtrace_mips32 fuel' m entry ra sp buffer size
          = Returned why n m')
    /\ match why with
       | StopArguments => (size <= 0 \/ buffer = 0) /\ n = 0
       | StopFull => n = size
       | StopNullRa => 0 <= n < size
       | StopSentinel => 0 < n <= size
       end.
Proof.
  intros Hscans.
  destruct ((size <=? 0) || (buffer =? 0)) eqn:Hargs.
  - exists O, StopArguments, 0, m. split.
    + intros fuel' _. unfold backtrace_mips32_mapped, backtrace_mips32.
      rewrite Hargs. split; reflexivity.
    + split; [|reflexivity].
      apply orb_true_iff in Hargs. destruct Hargs as [H|H].
      * left. now apply Z.leb_le.
      * right. now apply Z.eqb_eq.
  - pose proof Hargs as Hsplit.
    apply orb_false_iff in Hsplit. destruct Hsplit as [Hsize Hbuf].
    apply Z.leb_gt in Hsize. apply Z.eqb_neq in Hbuf.
    destruct (Hscans Hsize Hbuf) as (k0 & s & Hfwd & Hcomplete).
    destruct (unwind_mapped_terminates mapped m buffer size ra
                (wrap_unsigned 32 (sp + s)) Hcomplete (Z.to_nat size) m 0 ra
                (wrap_unsigned 32 (sp + s)))
      as (k1 & f1 & [[why n] m'] & Hloop); [lia|apply entered_first|].
    exists (Nat.max k0 (Nat.max k1 f1)), why, n, m'. split.
    + intros fuel' Hfuel.
      assert (Hret : backtrace_mips32_mapped mapped fuel' m entry ra sp
                       buffer size = Done (why, n, m')).
      { unfold backtrace_mips32_mapped. rewrite Hargs.
        rewrite (scan_forward_mapped_mono mapped k0 fuel' m entry s Hfwd)
          by lia.
        apply (unwind_mapped_mono mapped k1 fuel' f1 fuel' _ _ _ _ _ _ _
                 Hloop); lia. }
      split; [exact Hret|].
      now apply (backtrace_mips32_mapped_agrees mapped).
    + apply unwind_mapped_agrees in Hloop.
      pose proof (unwind_invariant k1 f1 m m buffer size 0 ra
                    (wrap_unsigned 32 (sp + s))) as Hinv.
      rewrite Hloop in Hinv.
      destruct Hinv as (Hn & _ & Hnot & Hfull & Hnull & Hsen);
        [lia|apply same_outside_refl|].
      destruct why.
      * congruence.
      * now apply Hfull.
      * specialize (Hnull eq_refl). lia.
      * specialize (Hsen eq_refl). lia.
Qed.

(** The states in which the capture over [chain_memory] enters its outer
    loop: the first, and the one with the caller's return address. *)
Lemma chain_memory_entered (m : memory) (depth ra sp : Z) :
  loop_entered sample_mapping 0x7fff0000 64 chain_memory 0x40000c 0x7ffe0028
    m depth ra sp ->
  (m = chain_memory /\ depth = 0 /\ ra = 0x40000c /\ sp = 0x7ffe0028)
  \/ (m = store chain_memory (0x7fff0000 + 4 * 0) 0x40000c
      /\ depth = 1 /\ ra = 0x400104 /\ sp = 0x7ffe0048).
Proof.
  induction 1 as [|m depth ra sp k ro ss _ IH _ _ Hscan _].
  - left. repeat split.
  - destruct IH as [(-> & -> & -> & ->)|(-> & -> & -> & ->)].
    + assert (H3 : scan_backward_mapped sample_mapping 3
                     (store chain_memory (0x7fff0000 + 4 * 0) 0x40000c)
                     0x40000c 0 0 = Done (ScanFound 28 32))
        by (vm_compute; reflexivity).
      pose proof (scan_backward_mapped_unique _ _ _ _ _ _ _ _ _ Hscan H3)
        as Heq.
      injection Heq as -> ->. right. repeat split.
    + assert (H1 : scan_backward_mapped sample_mapping 1
                     (store (store chain_memory (0x7fff0000 + 4 * 0) 0x40000c)
                        (0x7fff0000 + 4 * 1) 0x400104)
                     0x400104 0 0 = Done ScanSentinel)
        by (vm_compute; reflexivity).
      pose proof (scan_backward_mapped_unique _ _ _ _ _ _ _ _ _ Hscan H1)
        as Heq.
      discriminate.
Qed.

Lemma chain_memory_iterations :
  iterations_complete sample_mapping 0x7fff0000 64 chain_memory 0x40000c
    0x7ffe0028.
Proof.
  intros m depth ra sp Hin _.
  destruct (chain_memory_entered m depth ra sp Hin)
    as [(-> & -> & -> & ->)|(-> & -> & -> & ->)].
  - split; [reflexivity|]. exists 3%nat, (ScanFound 28 32).
    split; vm_compute; reflexivity.
  - split; [reflexivity|]. exists 1%nat, ScanSentinel.
    split; [vm_compute; reflexivity|exact I].
Qed.

Lemma capture_terminates_witness :
  exists fuel why n m',
    (forall fuel', (fuel <= fuel')%nat ->
       backtrace_mips32_mapped sample_mapping fuel' chain_memory 0x500000
         0x40000c 0x7ffe0000 0x7fff0000 64 = Done (why, n, m')
       /\ backtrace_mips32 fuel' chain_memory 0x500000 0x40000c 0x7ffe0000
            0x7fff0000 64 = Returned why n m')
    /\ match why with
       | StopArguments => (64 <= 0 \/ 0x7fff0000 = 0) /\ n = 0
       | StopFull => n = 64
       | StopNullRa => 0 <= n < 64
       | StopSentinel => 0 < n <= 64
       end.
Proof.
  apply (capture_terminates sample_mapping chain_memory 0x500000 0x40000c
           0x7ffe0000 0x7fff0000 64).
  intros _ _. exists 1%nat, 40. split.
  - reflexivity.
  - exact chain_memory_iterations.
Defined.

(** The capture over [chain_memory] returns two frames; started next to
    the end of the mapped code in a memory without patterns, the forward
    scan faults at the third word. *)
Example mapped_captures :
  backtrace_mips32_mapped sample_mapping 8 chain_memory 0x500000 0x40000c
    0x7ffe0000 0x7fff0000 64
  = Done (StopSentinel, 2,
          store (store chain_memory (0x7fff0000 + 4 * 0) 0x40000c)
            (0x7fff0000 + 4 * (0 + 1)) 0x400104)
  /\ backtrace_mips32_mapped sample_mapping 8 blank_memory 0x5ffff8 0x40000c
       0x7ffe0000 0x7fff0000 64
     = Fault.
Proof. split; reflexivity. Qed.

(** ** The reporter *)

Lemma fold_left_map_lines {A B S : Type} (f : S -> B -> S) (g : A -> B)
    (l : list A) (s : S) :
  fold_left f (map g l) s = fold_left (fun st x => f st (g x)) l s.
Proof.
  revert s. induction l as [|x l IH]; intros s; simpl; [reflexivity|apply IH].
Qed.

Lemma backtrace_symbols_null (dladdr : Z -> resolution)
    (malloc : Z -> option Z) (c : ElfClass) (array : list Z) :
  malloc (symbols_request dladdr c array) = None ->
  backtrace_symbols dladdr malloc c array = NullResult.
Proof.
  unfold symbols_request, backtrace_symbols. intros Hfail. now rewrite Hfail.
Qed.

(** C4. When the allocation fails, [backtrace_symbols] returns the null
    pointer, for every array, and a [print_stack_trace] whose capture
    returned [nptrs] frames returns normally after one [LOG] of the
    header and one [LOG] per frame carrying the frame number and the bare
    address, printed by the same [%p] conversion as the [[<address>]]
    line of an unresolved address. *)
Theorem print_stack_trace_fallback (dladdr : Z -> resolution)
    (malloc : Z -> option Z) (get_time : log_state -> string)
    (fuel : nat) (src : string) (m : memory) (entry ra sp buffer : Z)
    (s : log_state) (log_level : Z) (why : stop_reason) (nptrs : Z)
    (m' : memory) :
  backtrace_mips32 fuel m entry ra sp buffer 64 = Returned why nptrs m' ->
  malloc (symbols_request dladdr ELFCLASS32
            (read_buffer m' buffer (Z.to_nat nptrs))) = None ->
  (forall c array,
     malloc (symbols_request dladdr c array) = None ->
     backtrace_symbols dladdr malloc c array = NullResult)
  /\ print_stack_trace dladdr malloc get_time fuel src m entry ra sp buffer
       s log_level
     = Some (LOG_all get_time s log_level src
               (header_line nptrs
                :: fallback_lines m' buffer (Z.to_nat nptrs)))
  /\ List.length (fallback_lines m' buffer (Z.to_nat nptrs)) = Z.to_nat nptrs
  /\ (forall c a r, has_module r = false ->
        format_line c a r = "[" ++ fmt_p a ++ "]").
Proof.
  intros Hcap Hfail. split; [|split; [|split]].
  - intros c array. apply backtrace_symbols_null.
  - unfold print_stack_trace. rewrite Hcap.
    rewrite (backtrace_symbols_null dladdr malloc _ _ Hfail).
    unfold LOG_all, header_line, fallback_lines. cbn [fold_left fst snd].
    rewrite fold_left_map_lines. reflexivity.
  - unfold fallback_lines. now rewrite length_map, length_seq.
  - intros c a r Hmod. unfold format_line. now rewrite Hmod.
Qed.

Lemma framed_capture :
  exists m',
    backtrace_mips32 8 framed_memory 0x500000 0x40000c 0x7ffe0000 0x7fff0000 64
    = Returned StopNullRa 1 m'
    /\ load m' 0x7fff0000 = 0x40000c.
Proof. eexists. split; reflexivity. Qed.

Lemma print_stack_trace_fallback_witness :
  print_stack_trace sample_dladdr malloc_fails sample_clock 8 "backtrace.c"
    framed_memory 0x500000 0x40000c 0x7ffe0000 0x7fff0000 sample_logger 8
  = Some (LOG_all sample_clock sample_logger 8 "backtrace.c"
            (header_line 1
             :: fallback_lines
                  (store framed_memory (0x7fff0000 + 4 * 0) 0x40000c)
                  0x7fff0000 (Z.to_nat 1))).
Proof.
  apply (print_stack_trace_fallback sample_dladdr malloc_fails sample_clock 8
           "backtrace.c" framed_memory 0x500000 0x40000c 0x7ffe0000 0x7fff0000
           sample_logger 8 StopNullRa 1
           (store framed_memory (0x7fff0000 + 4 * 0) 0x40000c)).
  - reflexivity.
  - reflexivity.
Defined.

(** The text the sample logger received on that run. *)
Example fallback_output :
  option_map emitted
    (print_stack_trace sample_dladdr malloc_fails sample_clock 8 "backtrace.c"
       framed_memory 0x500000 0x40000c 0x7ffe0000 0x7fff0000 sample_logger 8)
  = Some
      [FileWrite 2 "2007-01-01 00:00:00.000 [ERROR] [dm] backtrace.c:26: ";
       FileWrite 2 "Stack trace: 1 frames (most recent call first)";
       FileWrite 2 LF;
       FileWrite 2 "2007-01-01 00:00:00.000 [ERROR] [dm] backtrace.c:31: ";
       FileWrite 2 (TAB ++ "#00 0x40000c");
       FileWrite 2 LF].
Proof. vm_compute. reflexivity. Qed.

(** ** The logger *)

(** C9. With the sink unspecified, the mask at [LOG_DISABLED], or the
    level's bit clear in the mask, [log_log] returns with nothing added to
    the output, the configuration as it was and the mutex released: the
    state of a call that found the mutex free is the state it leaves. *)
Theorem log_log_discards (time_str : string) (s : log_state) (level : Z)
    (src : string) (line : Z) (msg : string) :
  sink (Config s) = LOG_SINK_UNSPECIFIED
  \/ level_mask (Config s) = LOG_DISABLED
  \/ Z.land (level_mask (Config s)) level = 0 ->
  emitted (log_log time_str s level src line msg) = emitted s
  /\ Config (log_log time_str s level src line msg) = Config s
  /\ cfg_mtx (log_log time_str s level src line msg) = false
  /\ (cfg_mtx s = false -> log_log time_str s level src line msg = s).
Proof.
  intros Hoff.
  assert (Hret : log_log time_str s level src line msg = unlock (lock s)).
  { unfold log_log. cbn [lock Config].
    destruct Hoff as [H|[H|H]]; rewrite H.
    - reflexivity.
    - rewrite orb_true_r. reflexivity.
    - rewrite orb_true_r. reflexivity. }
  rewrite Hret. repeat split.
  destruct s as [cfg mtx out]. cbn. intros ->. reflexivity.
Qed.

Lemma log_log_discards_witness :
  log_log "2007-01-01 00:00:00.000" (mkLogState Config_initial false [])
    LOG_LEVEL_ERROR "backtrace.c" 26 "Stack trace: 7 frames"
  = mkLogState Config_initial false [].
Proof.
  apply (log_log_discards "2007-01-01 00:00:00.000"
           (mkLogState Config_initial false []) LOG_LEVEL_ERROR
           "backtrace.c" 26 "Stack trace: 7 frames").
  - left. reflexivity.
  - reflexivity.
Defined.

(** ** Time differences *)

Lemma wrap_long_small (c : ElfClass) (x : Z) :
  is_long c x -> wrap_long c x = x.
Proof.
  unfold is_long, LONG_MIN, LONG_MAX, wrap_long, wrap_signed.
  intros H. rewrite Z.mod_small; [lia|].
  destruct c; cbn in *; lia.
Qed.

(** What a call leaves at [result], in terms of the values [start] and
    [end_] pointed to on entry, whichever of the three pointers coincide. *)
Lemma measure_diff_result (c : ElfClass) (st : tstore)
    (p_start p_end p_result : nat) :
  measure_diff c st p_start p_end p_result p_result
  = let sec := wrap_long c (tv_sec (st p_end) - tv_sec (st p_start)) in
    let nsec := wrap_long c (tv_nsec (st p_end) - tv_nsec (st p_start)) in
    if nsec <? 0
    then mkTimespec (wrap_long c (sec - 1)) (wrap_long c (nsec + 1000000000))
    else mkTimespec sec nsec.
Proof.
  unfold measure_diff, set_tv_sec, set_tv_nsec.
  rewrite !Nat.eqb_refl. cbn [tv_sec tv_nsec].
  destruct (Nat.eqb_spec p_end p_result) as [->|_],
           (Nat.eqb_spec p_start p_result) as [->|_];
    cbn [tv_sec tv_nsec];
    match goal with
    | |- context [if ?b then _ else _] => destruct b
    end; rewrite ?Nat.eqb_refl; reflexivity.
Qed.

Lemma measure_diff_frame (c : ElfClass) (st : tstore)
    (p_start p_end p_result q : nat) :
  q <> p_result -> measure_diff c st p_start p_end p_result q = st q.
Proof.
  intros Hq. apply Nat.eqb_neq in Hq.
  unfold measure_diff, set_tv_sec, set_tv_nsec.
  match goal with
  | |- context [if ?b then _ else _] => destruct b
  end; rewrite ?Hq; reflexivity.
Qed.

Lemma LONG_MAX_large (c : ElfClass) : 2147483647 <= LONG_MAX c.
Proof. destruct c; cbv; discriminate. Qed.

Lemma measure_diff_correct (c : ElfClass) (st : tstore)
    (p_start p_end p_result : nat) :
  nsec_normalized (st p_start) ->
  nsec_normalized (st p_end) ->
  to_ns (st p_start) <= to_ns (st p_end) ->
  tv_sec (st p_end) - tv_sec (st p_start) <= LONG_MAX c ->
  to_ns (measure_diff c st p_start p_end p_result p_result)
  = to_ns (st p_end) - to_ns (st p_start)
  /\ 0 <= tv_sec (measure_diff c st p_start p_end p_result p_result)
  /\ tv_sec (measure_diff c st p_start p_end p_result p_result)
     <= tv_sec (st p_end) - tv_sec (st p_start)
  /\ nsec_normalized (measure_diff c st p_start p_end p_result p_result).
Proof.
  unfold nsec_normalized, to_ns, NANOSECONDS_IN_SECOND.
  intros Hs He Hle Hfit. rewrite measure_diff_result.
  pose proof (LONG_MAX_large c) as Hmax.
  assert (Hmin : LONG_MIN c = - LONG_MAX c - 1)
    by (unfold LONG_MIN, LONG_MAX; lia).
  set (ds := tv_sec (st p_end) - tv_sec (st p_start)) in *.
  set (dn := tv_nsec (st p_end) - tv_nsec (st p_start)) in *.
  assert (Hds : 0 <= ds) by (subst ds; nia).
  cbv zeta.
  rewrite (wrap_long_small c ds) by (unfold is_long; lia).
  rewrite (wrap_long_small c dn) by (unfold is_long; subst dn; lia).
  destruct (Z.ltb_spec dn 0) as [Hneg|Hpos].
  - assert (1 <= ds) by (subst ds dn; nia).
    rewrite (wrap_long_small c (ds - 1)) by (unfold is_long; lia).
    rewrite (wrap_long_small c (dn + 1000000000))
      by (unfold is_long; subst dn; lia).
    cbn [tv_sec tv_nsec]. subst ds dn. lia.
  - cbn [tv_sec tv_nsec]. subst ds dn. lia.
Qed.

Lemma timespec_cmp_expired (a b : timespec) :
  nsec_normalized a -> nsec_normalized b ->
  (timespec_cmp a b >=? 0) = (to_ns a >=? to_ns b).
Proof.
  unfold nsec_normalized, to_ns, timespec_cmp, NANOSECONDS_IN_SECOND.
  intros Ha Hb.
  destruct (Z.eqb_spec (tv_sec a) (tv_sec b)) as [Hs|Hs].
  - destruct (Z.eqb_spec (tv_nsec a) (tv_nsec b)) as [Hn|Hn].
    + symmetry. apply Z.geb_le. lia.
    + destruct (Z.gtb_spec (tv_nsec a) (tv_nsec b)).
      * symmetry. apply Z.geb_le. lia.
      * destruct (Z.geb_spec (tv_sec a * 1000000000 + tv_nsec a)
                             (tv_sec b * 1000000000 + tv_nsec b));
          [lia|reflexivity].
  - destruct (Z.gtb_spec (tv_sec a) (tv_sec b)).
    + symmetry. apply Z.geb_le. lia.
    + destruct (Z.geb_spec (tv_sec a * 1000000000 + tv_nsec a)
                           (tv_sec b * 1000000000 + tv_nsec b));
        [lia|reflexivity].
Qed.

Lemma to_ns_milliseconds (r : timespec) :
  to_ns r / 1000000 = tv_sec r * 1000 + tv_nsec r / 1000000.
Proof.
  unfold to_ns, NANOSECONDS_IN_SECOND.
  replace (tv_sec r * 1000000000) with (tv_sec r * 1000 * 1000000) by lia.
  apply Z.div_add_l. lia.
Qed.

Lemma timespec_to_ms_exact (c : ElfClass) (r : timespec) :
  0 <= tv_sec r -> nsec_normalized r ->
  to_ns r / 1000000 <= LONG_MAX c ->
  timespec_to_ms c r = to_ns r / 1000000 /\ 0 <= timespec_to_ms c r.
Proof.
  unfold nsec_normalized, NANOSECONDS_IN_SECOND.
  intros Hsec Hn Hfit. rewrite to_ns_milliseconds in *.
  assert (Hq : Z.quot (tv_nsec r) 1000000 = tv_nsec r / 1000000)
    by (apply Z.quot_div_nonneg; lia).
  assert (0 <= tv_nsec r / 1000000) by (apply Z.div_pos; lia).
  assert (Hmin : LONG_MIN c = - LONG_MAX c - 1)
    by (unfold LONG_MIN, LONG_MAX; lia).
  assert (Hmax64 : LONG_MAX c <= 2 ^ 63 - 1) by (destruct c; cbv; discriminate).
  unfold timespec_to_ms, MILLISECONDS_IN_SECOND, NANOSECONDS_IN_MILLISECOND.
  rewrite Hq, wrap_long_small by (unfold is_long; lia).
  unfold wrap_int64, wrap_signed.
  rewrite Z.mod_small; [lia|]. change (2 ^ (64 - 1)) with (2 ^ 63). lia.
Qed.

(** An interval whose milliseconds fit [long] has seconds that do. *)
Lemma interval_seconds_fit (c : ElfClass) (a b : timespec) :
  nsec_normalized a -> nsec_normalized b ->
  (to_ns b - to_ns a) / 1000000 <= LONG_MAX c ->
  tv_sec b - tv_sec a <= LONG_MAX c.
Proof.
  unfold nsec_normalized, to_ns, NANOSECONDS_IN_SECOND. intros Ha Hb Hfit.
  pose proof (LONG_MAX_large c) as Hmax.
  destruct (Z.le_gt_cases (tv_sec b - tv_sec a) (LONG_MAX c)) as [H|H];
    [exact H|exfalso].
  assert (Hbig : LONG_MAX c * 1000 * 1000000
                 <= tv_sec b * 1000000000 + tv_nsec b
                    - (tv_sec a * 1000000000 + tv_nsec a)) by lia.
  apply (Z.div_le_mono _ _ 1000000) in Hbig; [|lia].
  rewrite Z.div_mul in Hbig by lia. lia.
Qed.

Lemma timer_remaining_exact (c : ElfClass) (now : timespec) (t : timer) :
  valid t <> 0 ->
  nsec_normalized now -> nsec_normalized (deadline t) ->
  (to_ns (deadline t) - to_ns now) / 1000000 <= LONG_MAX c ->
  0 <= timer_remaining c now t
  /\ (to_ns now < to_ns (deadline t) ->
        timer_remaining c now t = (to_ns (deadline t) - to_ns now) / 1000000).
Proof.
  intros Hvalid Hnow Hdl Hfit. unfold timer_remaining.
  destruct (Z.eqb_spec (valid t) 0) as [|_]; [contradiction|].
  cbn [timer_store loc_diff loc_deadline].
  rewrite (timespec_cmp_expired _ _ Hnow Hdl).
  destruct (Z.geb_spec (to_ns now) (to_ns (deadline t))) as [Hexp|Hrun].
  - split; lia.
  - pose proof (measure_diff_correct c (timer_store now t) 0 2 0)
      as Hdiff. cbn [timer_store] in Hdiff.
    destruct Hdiff as (Hval & Hsec & _ & Hnsec);
      [exact Hnow|exact Hdl|lia|now apply interval_seconds_fit|].
    pose proof (timespec_to_ms_exact c _ Hsec Hnsec) as Hms.
    rewrite Hval in Hms. destruct (Hms Hfit) as [Heq Hpos].
    split; [exact Hpos|intros _; exact Heq].
Qed.

Lemma timer_elapsed_exact (c : ElfClass) (now : timespec) (t : timer) :
  valid t <> 0 ->
  nsec_normalized (start t) -> nsec_normalized now ->
  to_ns (start t) <= to_ns now ->
  (to_ns now - to_ns (start t)) / 1000000 <= LONG_MAX c ->
  0 <= timer_elapsed c now t
  /\ timer_elapsed c now t = (to_ns now - to_ns (start t)) / 1000000.
Proof.
  intros Hvalid Hst Hnow Hle Hfit. unfold timer_elapsed.
  destruct (Z.eqb_spec (valid t) 0) as [|_]; [contradiction|].
  cbn [loc_diff loc_start].
  pose proof (measure_diff_correct c (timer_store now t) 1 0 0) as Hdiff.
  cbn [timer_store] in Hdiff.
  destruct Hdiff as (Hval & Hsec & _ & Hnsec);
    [exact Hst|exact Hnow|exact Hle|now apply interval_seconds_fit|].
  pose proof (timespec_to_ms_exact c _ Hsec Hnsec) as Hms.
  rewrite Hval in Hms. destruct (Hms Hfit) as [Heq Hpos].
  split; [exact Hpos|exact Heq].
Qed.





(** ** Instances *)

Ltac in_range := vm_compute; intuition congruence.

Lemma sample_array_pointers : Forall (is_pointer ELFCLASS32) sample_array.
Proof. repeat constructor; in_range. Qed.

Lemma sample_block_fits : block_fits ELFCLASS32 (map sample_dladdr sample_array).
Proof. vm_compute. reflexivity. Qed.



Example sample_strings :
  backtrace_symbols sample_dladdr malloc_ok ELFCLASS32 sample_array
  = Symbols 0x10000000
      [(0x1000000c, "./driver_manager(print_stack_trace+0x3c) [0x44afcc]");
       (0x10000040, "/lib/libc.so.0 [0x2ac7b4d4]");
       (0x1000005c, "[0x7fff0000]")].
Proof. vm_compute. reflexivity. Qed.

Lemma lines_follow_grammar_witness :
  exists ptr,
    nth_error
      [(0x1000000c, "./driver_manager(print_stack_trace+0x3c) [0x44afcc]");
       (0x10000040, "/lib/libc.so.0 [0x2ac7b4d4]");
       (0x1000005c, "[0x7fff0000]")] 1
    = Some (ptr, grammar_line ELFCLASS32 0x2ac7b4d4 (sample_dladdr 0x2ac7b4d4))
    /\ grammar_line ELFCLASS32 0x2ac7b4d4 (sample_dladdr 0x2ac7b4d4)
       = line_with_module "/lib/libc.so.0" (fmt_p 0x2ac7b4d4).
Proof.
  apply (lines_follow_grammar ELFCLASS32 sample_dladdr malloc_ok sample_array
           0x10000000 _ sample_strings 1%nat 0x2ac7b4d4).
  reflexivity.
Defined.

Lemma offset_sign_and_magnitude_witness :
  format_line ELFCLASS32 0x44afcc (sample_dladdr 0x44afcc)
  = "./driver_manager" ++ "(" ++ "print_stack_trace"
    ++ amended_offset_text 0x44afcc 0x44af90 ++ ") [" ++ fmt_p 0x44afcc ++ "]".
Proof.
  apply (offset_sign_and_magnitude ELFCLASS32 0x44afcc (sample_dladdr 0x44afcc)
           "./driver_manager" "print_stack_trace").
  - in_range.
  - in_range.
  - reflexivity.
  - reflexivity.
Defined.

Example offset_forms :
  (format_line ELFCLASS32 0x44afcc (sample_dladdr 0x44afcc),
   format_line ELFCLASS32 0x44af90 (sample_dladdr 0x44af90),
   format_line ELFCLASS32 0x44af00 (sample_dladdr 0x44af00))
  = ("./driver_manager(print_stack_trace+0x3c) [0x44afcc]",
     "./driver_manager(print_stack_trace+0) [0x44af90]",
     "./driver_manager(print_stack_trace-0x90) [0x44af00]").
Proof. vm_compute. reflexivity. Qed.

Lemma capture_rejects_arguments_witness :
  backtrace_mips32 0 framed_memory 0x500000 0x40000c 0x7ffe0000 0 64
  = Returned StopArguments 0 framed_memory.
Proof.
  apply (capture_rejects_arguments 0 framed_memory 0x500000 0x40000c
           0x7ffe0000 0 64).
  right. reflexivity.
Defined.


Example measure_diff_borrows :
  measure_diff ELFCLASS32 sample_tstore 0 1 0 0%nat = mkTimespec 1 200000000.
Proof. reflexivity. Qed.

Example timer_samples :
  (timer_remaining ELFCLASS32 (mkTimespec 100 900000000)
     (mkTimer 3 (mkTimespec 90 0) (mkTimespec 105 100000000)),
   timer_elapsed ELFCLASS32 (mkTimespec 100 900000000)
     (mkTimer 3 (mkTimespec 90 950000000) (mkTimespec 105 100000000)),
   timer_remaining ELFCLASS32 (mkTimespec 100 900000000)
     (mkTimer 2 (mkTimespec 90 0) (mkTimespec 105 100000000)))
  = (4200, 9950, -1).
Proof. reflexivity. Qed.

(** Why the milliseconds must fit [long]: the product
    [tv_sec * MILLISECONDS_IN_SECOND] is a [long], and 25 days of seconds
    overflow it where [long] has 32 bits. *)
Example timespec_to_ms_long_product :
  (timer_elapsed ELFCLASS32 (mkTimespec 2160000 0)
     (mkTimer 3 (mkTimespec 0 0) (mkTimespec 0 0)),
   timer_elapsed ELFCLASS64 (mkTimespec 2160000 0)
     (mkTimer 3 (mkTimespec 0 0) (mkTimespec 0 0)))
  = (-2134967296, 2160000000).
Proof. vm_compute. reflexivity. Qed.

Example formatting_samples :
  (fmt_p 0x44afcc, fmt_p 0, fmt_alt_lx 0x3c, fmt_alt_lx 0,
   fmt_02d 5, fmt_02d 12, fmt_d 7)
  = ("0x44afcc", "(nil)", "0x3c", "0", "05", "12", "7").
Proof. reflexivity. Qed.

(** * Further properties *)

(** ** The logger: what a call may do *)

Lemma log_log_off (time_str : string) (s : log_state) (level : Z)
    (src : string) (line : Z) (msg : string) :
  sink (Config s) = LOG_SINK_UNSPECIFIED
  \/ level_mask (Config s) = LOG_DISABLED
  \/ Z.land (level_mask (Config s)) level = 0 ->
  log_log time_str s level src line msg = unlock (lock s).
Proof.
  intros Hoff. unfold log_log. cbn [lock Config].
  destruct Hoff as [H|[H|H]]; rewrite H; rewrite ?orb_true_r; reflexivity.
Qed.

Lemma log_log_file_on (time_str : string) (s : log_state) (level : Z)
    (src : string) (line : Z) (msg : string) (stream : Z) :
  sink (Config s) = LOG_SINK_FILE ->
  file (Config s) = Some stream ->
  log_enabled (Config s) level ->
  emitted (log_log time_str s level src line msg)
  = (emitted s
     ++ [FileWrite stream
           (time_str ++ " [" ++ fmt_left5 (get_level_label level)
            ++ "] [" ++ ident (Config s) ++ "] " ++ src ++ ":"
            ++ fmt_d line ++ ": ");
         FileWrite stream msg;
         FileWrite stream LF])%list.
Proof.
  intros Hsink Hfile (_ & Hmask & Hlevel).
  unfold log_log. cbn [lock Config]. rewrite Hsink, Hfile.
  cbn [log_sink_eqb orb andb].
  destruct (Z.eqb_spec (level_mask (Config s)) LOG_DISABLED);
    [contradiction|].
  destruct (Z.eqb_spec (Z.land (level_mask (Config s)) level) 0);
    [contradiction|].
  cbn [orb]. unfold log_to_file. cbn [lock Config]. rewrite Hfile.
  reflexivity.
Qed.

Lemma log_log_keeps_config (time_str : string) (s : log_state) (level : Z)
    (src : string) (line : Z) (msg : string) :
  Config (log_log time_str s level src line msg) = Config s
  /\ cfg_mtx (log_log time_str s level src line msg) = false.
Proof.
  unfold log_log, log_to_file, log_to_syslog. cbn [lock Config].
  repeat match goal with
         | |- context [if ?b then _ else _] => destruct b
         | |- context [match ?x with _ => _ end] => destruct x
         end; split; reflexivity.
Qed.

(** Whatever the state and the arguments, [log_log] leaves the
    configuration alone, releases the mutex and only appends to the
    output; what it appends goes to the configured sink, and only when
    the level is let through. *)
Theorem log_log_frame (time_str : string) (s : log_state) (level : Z)
    (src : string) (line : Z) (msg : string) :
  Config (log_log time_str s level src line msg) = Config s
  /\ cfg_mtx (log_log time_str s level src line msg) = false
  /\ exists evs,
       emitted (log_log time_str s level src line msg)
       = (emitted s ++ evs)%list
       /\ Forall (to_configured_sink (Config s)) evs
       /\ (evs <> [] -> log_enabled (Config s) level).
Proof.
  assert (Hdiscard :
            Config (unlock (lock s)) = Config s
            /\ cfg_mtx (unlock (lock s)) = false
            /\ exists evs,
                 emitted (unlock (lock s)) = (emitted s ++ evs)%list
                 /\ Forall (to_configured_sink (Config s)) evs
                 /\ (evs <> [] -> log_enabled (Config s) level)).
  { split; [reflexivity|]. split; [reflexivity|]. exists [].
    split; [cbn; now rewrite app_nil_r|]. split; [constructor|congruence]. }
  unfold log_log. cbn [lock Config].
  destruct (log_sink_eqb (sink (Config s)) LOG_SINK_UNSPECIFIED) eqn:Hsink;
    cbn [orb]; [exact Hdiscard|].
  destruct (Z.eqb_spec (level_mask (Config s)) LOG_DISABLED) as [Hm|Hm];
    cbn [orb]; [exact Hdiscard|].
  destruct (Z.eqb_spec (Z.land (level_mask (Config s)) level) 0) as [Hl|Hl];
    [exact Hdiscard|].
  assert (Hen : log_enabled (Config s) level).
  { split; [|split; assumption].
    intros Heq. rewrite Heq in Hsink. discriminate. }
  destruct (sink (Config s)) eqn:Hk; [discriminate| |]; cbn [log_sink_eqb andb].
  - destruct (file (Config s)) as [stream|] eqn:Hf; [|exact Hdiscard].
    unfold log_to_file. cbn [lock Config]. rewrite Hf.
    split; [reflexivity|]. split; [reflexivity|]. eexists.
    split; [reflexivity|]. split; [|intros _; exact Hen].
    repeat constructor; assumption.
  - unfold log_to_syslog.
    split; [reflexivity|]. split; [reflexivity|]. eexists.
    split; [reflexivity|]. split; [|intros _; exact Hen].
    repeat constructor; assumption.
Qed.

(** With a file sink: a NULL stream discards the message; otherwise a
    message let through is written in three pieces to that stream: the
    stamp with the time, the level label in a field of five, the
    identifier and the source position; the message in full; a newline. *)
Theorem log_log_to_file (time_str : string) (s : log_state) (level : Z)
    (src : string) (line : Z) (msg : string) :
  sink (Config s) = LOG_SINK_FILE ->
  (file (Config s) = None ->
     emitted (log_log time_str s level src line msg) = emitted s)
  /\ (forall stream,
        file (Config s) = Some stream ->
        log_enabled (Config s) level ->
        emitted (log_log time_str s level src line msg)
        = (emitted s
           ++ [FileWrite stream
                 (time_str ++ " [" ++ fmt_left5 (get_level_label level)
                  ++ "] [" ++ ident (Config s) ++ "] " ++ src ++ ":"
                  ++ fmt_d line ++ ": ");
               FileWrite stream msg;
               FileWrite stream LF])%list).
Proof.
  intros Hsink. split.
  - intros Hnull. unfold log_log. cbn [lock Config]. rewrite Hsink, Hnull.
    cbn [log_sink_eqb orb andb].
    destruct ((level_mask (Config s) =? LOG_DISABLED)
              || (Z.land (level_mask (Config s)) level =? 0)); reflexivity.
  - intros stream Hfile Hen. now apply log_log_file_on.
Qed.

Lemma log_log_to_file_witness :
  emitted (log_log "12:00:00.000" sample_logger LOG_LEVEL_WARN "timer.c" 26
             "timer_init(): timer is already initialized")
  = [FileWrite 2 "12:00:00.000 [WARN ] [dm] timer.c:26: ";
     FileWrite 2 "timer_init(): timer is already initialized";
     FileWrite 2 LF].
Proof.
  apply (log_log_to_file "12:00:00.000" sample_logger LOG_LEVEL_WARN
           "timer.c" 26 "timer_init(): timer is already initialized").
  - reflexivity.
  - reflexivity.
  - repeat split; discriminate.
Defined.

Lemma string_append_assoc (s t u : string) : (s ++ t) ++ u = s ++ t ++ u.
Proof. induction s as [|ch s IH]; simpl; [reflexivity|now rewrite IH]. Qed.

Lemma take_chars_length (n : nat) (s : string) :
  (String.length (take_chars n s) <= n)%nat.
Proof.
  revert s. induction n as [|n IH]; intros [|ch s]; simpl; try lia.
  specialize (IH s). lia.
Qed.

Lemma take_chars_all (n : nat) (s : string) :
  (String.length s <= n)%nat -> take_chars n s = s.
Proof.
  revert s. induction n as [|n IH]; intros [|ch s] Hlen; simpl in *;
    try reflexivity; try lia.
  rewrite IH; [reflexivity|lia].
Qed.

(** With the syslog sink a message let through makes exactly one syslog
    call. Its text is the source position cut to 63 characters, [": "],
    and the message cut to 255 characters, so never more than 320; a
    position and a message within these limits pass unchanged. The four
    levels map to the priorities ERR, WARNING, INFO and DEBUG. *)
Theorem log_log_to_syslog (time_str : string) (s : log_state) (level : Z)
    (src : string) (line : Z) (msg : string) :
  sink (Config s) = LOG_SINK_SYSLOG ->
  log_enabled (Config s) level ->
  exists priority text,
    emitted (log_log time_str s level src line msg)
    = (emitted s ++ [Syslog priority text])%list
    /\ text = take_chars 63 (src ++ ":" ++ fmt_d line) ++ ": "
              ++ take_chars 255 msg
    /\ strlen text <= 320
    /\ (strlen (src ++ ":" ++ fmt_d line) <= 63 -> strlen msg <= 255 ->
          text = src ++ ":" ++ fmt_d line ++ ": " ++ msg)
    /\ (level = LOG_LEVEL_ERROR -> priority = LOG_ERR)
    /\ (level = LOG_LEVEL_WARN -> priority = LOG_WARNING)
    /\ (level = LOG_LEVEL_INFO -> priority = LOG_INFO)
    /\ (level = LOG_LEVEL_DEBUG -> priority = LOG_DEBUG).
Proof.
  intros Hsink (_ & Hmask & Hlevel).
  unfold log_log. cbn [lock Config]. rewrite Hsink.
  cbn [log_sink_eqb orb andb].
  destruct (Z.eqb_spec (level_mask (Config s)) LOG_DISABLED); [contradiction|].
  destruct (Z.eqb_spec (Z.land (level_mask (Config s)) level) 0);
    [contradiction|].
  cbn [orb]. unfold log_to_syslog, snprintf_trunc. cbn [Nat.pred].
  eexists _, _. split; [reflexivity|]. split; [reflexivity|].
  split; [|split; [|repeat split; intros ->; reflexivity]].
  - rewrite !strlen_append. unfold strlen at 1 3.
    pose proof (take_chars_length 63 (src ++ ":" ++ fmt_d line)).
    pose proof (take_chars_length 255 msg).
    change (strlen ": ") with 2. lia.
  - unfold strlen. intros Hp Hm.
    rewrite !take_chars_all by lia.
    now rewrite !string_append_assoc.
Qed.

Lemma log_log_to_syslog_witness :
  exists priority text,
    emitted (log_log "" (mkLogState (mkConfig "dm" 15 None LOG_SINK_SYSLOG)
                                    false [])
               LOG_LEVEL_ERROR "timer.c" 48 "negative")
    = ([] ++ [Syslog priority text])%list
    /\ text = take_chars 63 ("timer.c" ++ ":" ++ fmt_d 48) ++ ": "
              ++ take_chars 255 "negative"
    /\ strlen text <= 320
    /\ (strlen ("timer.c" ++ ":" ++ fmt_d 48) <= 63 -> strlen "negative" <= 255 ->
          text = "timer.c" ++ ":" ++ fmt_d 48 ++ ": " ++ "negative")
    /\ (LOG_LEVEL_ERROR = LOG_LEVEL_ERROR -> priority = LOG_ERR)
    /\ (LOG_LEVEL_ERROR = LOG_LEVEL_WARN -> priority = LOG_WARNING)
    /\ (LOG_LEVEL_ERROR = LOG_LEVEL_INFO -> priority = LOG_INFO)
    /\ (LOG_LEVEL_ERROR = LOG_LEVEL_DEBUG -> priority = LOG_DEBUG).
Proof.
  apply (log_log_to_syslog ""
           (mkLogState (mkConfig "dm" 15 None LOG_SINK_SYSLOG) false [])
           LOG_LEVEL_ERROR "timer.c" 48 "negative").
  - reflexivity.
  - repeat split; discriminate.
Defined.

(** ** The logger: configuration *)

Lemma log_sink_eqb_eq (a b : log_sink_t) : log_sink_eqb a b = true <-> a = b.
Proof. destruct a, b; simpl; split; congruence. Qed.

(** What was set is what is read back: [log_get_sink] returns the sink
    and the stream given to [log_set_sink] (the stream also when the sink
    is not a file), [log_get_level] the mask given to [log_set_level];
    each setter leaves the other settings and the output alone, and every
    call returns with the mutex released. *)
Theorem log_settings_round_trip (s : log_state) (k : log_sink_t)
    (f : option Z) (mask : Z) :
  log_get_sink (fst (log_set_sink s k f)) true true
  = (fst (log_set_sink s k f), Some k, Some f)
  /\ log_get_level (log_set_level s mask) = (log_set_level s mask, mask)
  /\ level_mask (Config (fst (log_set_sink s k f))) = level_mask (Config s)
  /\ ident (Config (fst (log_set_sink s k f))) = ident (Config s)
  /\ sink (Config (log_set_level s mask)) = sink (Config s)
  /\ file (Config (log_set_level s mask)) = file (Config s)
  /\ ident (Config (log_set_level s mask)) = ident (Config s)
  /\ emitted (fst (log_set_sink s k f)) = emitted s
  /\ emitted (log_set_level s mask) = emitted s
  /\ cfg_mtx (fst (log_set_sink s k f)) = false
  /\ cfg_mtx (log_set_level s mask) = false.
Proof. repeat split. Qed.

(** A logger set to a stream and to a mask holding the level's bit writes
    the next message of that level to that stream, whatever it was set to
    before. *)
Theorem configure_then_log (time_str : string) (s : log_state) (stream : Z)
    (mask level : Z) (src : string) (line : Z) (msg : string) :
  Z.land mask level <> 0 ->
  emitted
    (log_log time_str
       (log_set_level (fst (log_set_sink s LOG_SINK_FILE (Some stream))) mask)
       level src line msg)
  = (emitted s
     ++ [FileWrite stream
           (time_str ++ " [" ++ fmt_left5 (get_level_label level)
            ++ "] [" ++ ident (Config s) ++ "] " ++ src ++ ":"
            ++ fmt_d line ++ ": ");
         FileWrite stream msg;
         FileWrite stream LF])%list.
Proof.
  intros Hbit.
  set (s2 := log_set_level (fst (log_set_sink s LOG_SINK_FILE (Some stream)))
               mask).
  apply (log_log_file_on time_str s2 level src line msg stream eq_refl eq_refl).
  split; [discriminate|]. split; [|exact Hbit].
  intros Hoff. apply Hbit. cbn in Hoff. unfold LOG_DISABLED in Hoff.
  subst mask. apply Z.land_0_l.
Qed.

Lemma configure_then_log_witness :
  emitted
    (log_log "12:00:00.000"
       (log_set_level
          (fst (log_set_sink (mkLogState Config_initial false [])
                  LOG_SINK_FILE (Some 2)))
          (Z.lor LOG_LEVEL_WARN LOG_LEVEL_ERROR))
       LOG_LEVEL_ERROR "timer.c" 48 "late")
  = [FileWrite 2 "12:00:00.000 [ERROR] [?] timer.c:48: ";
     FileWrite 2 "late"; FileWrite 2 LF].
Proof.
  apply (configure_then_log "12:00:00.000"
           (mkLogState Config_initial false []) 2
           (Z.lor LOG_LEVEL_WARN LOG_LEVEL_ERROR) LOG_LEVEL_ERROR
           "timer.c" 48 "late").
  discriminate.
Defined.

Lemma log_set_sink_connection (s : log_state) (k : log_sink_t) (f : option Z)
    (open : bool) :
  (open = true <-> sink (Config s) = LOG_SINK_SYSLOG) ->
  (syslog_open_after open (snd (log_set_sink s k f)) = true
   <-> sink (Config (fst (log_set_sink s k f))) = LOG_SINK_SYSLOG).
Proof.
  intros Hinv. unfold log_set_sink. cbn [lock Config fst snd unlock sink].
  destruct k, (sink (Config s)) eqn:Hs; cbn;
    destruct open; intuition congruence.
Qed.

Lemma syslog_open_after_app (open : bool) (l1 l2 : list syslog_call) :
  syslog_open_after open (l1 ++ l2)
  = syslog_open_after (syslog_open_after open l1) l2.
Proof. unfold syslog_open_after. apply fold_left_app. Qed.

(** Through any run of [log_set_sink] calls, [openlog] and [closelog]
    keep the connection to syslog open exactly while the sink is syslog:
    [openlog] on every change to syslog, [closelog] on every change away
    from it. *)
Theorem syslog_connection_follows_sink (s : log_state)
    (settings : list (log_sink_t * option Z)) (open : bool) :
  (open = true <-> sink (Config s) = LOG_SINK_SYSLOG) ->
  (syslog_open_after open (snd (log_set_sinks s settings)) = true
   <-> sink (Config (fst (log_set_sinks s settings))) = LOG_SINK_SYSLOG).
Proof.
  revert s open. induction settings as [|[k f] rest IH]; intros s open Hinv.
  - exact Hinv.
  - cbn [log_set_sinks fst snd]. rewrite syslog_open_after_app.
    apply IH. now apply log_set_sink_connection.
Qed.

Lemma syslog_connection_follows_sink_witness :
  syslog_open_after false
    (snd (log_set_sinks (mkLogState Config_initial false [])
            [(LOG_SINK_SYSLOG, None); (LOG_SINK_FILE, Some 2);
             (LOG_SINK_SYSLOG, None)])) = true
  <-> sink (Config
              (fst (log_set_sinks (mkLogState Config_initial false [])
                      [(LOG_SINK_SYSLOG, None); (LOG_SINK_FILE, Some 2);
                       (LOG_SINK_SYSLOG, None)]))) = LOG_SINK_SYSLOG.
Proof.
  apply (syslog_connection_follows_sink (mkLogState Config_initial false [])
           [(LOG_SINK_SYSLOG, None); (LOG_SINK_FILE, Some 2);
            (LOG_SINK_SYSLOG, None)] false).
  split; discriminate.
Defined.

Example syslog_calls_of_a_run :
  snd (log_set_sinks (mkLogState Config_initial false [])
         [(LOG_SINK_SYSLOG, None); (LOG_SINK_SYSLOG, None);
          (LOG_SINK_FILE, Some 2); (LOG_SINK_UNSPECIFIED, None)])
  = [OpenLog "?" 3 8; CloseLog].
Proof. reflexivity. Qed.

(** ** The stack of starting points *)

Lemma measure_start_ptr_ok (clock : option timespec) (ms : measure_state) :
  start_ptr_ok ms -> start_ptr_ok (measure_start clock ms).
Proof.
  unfold start_ptr_ok, measure_start, ARRAY_SIZE. intros H.
  destruct (Z.geb_spec (start_ptr ms) 16); [exact H|].
  destruct clock; cbn [start_ptr]; lia.
Qed.

Lemma measure_get_ptr_ok (c : ElfClass) (clock : option timespec)
    (ms : measure_state) (diff : nat) :
  start_ptr_ok ms -> start_ptr_ok (measure_get c clock ms diff).
Proof.
  unfold start_ptr_ok, measure_get, ARRAY_SIZE. intros H.
  destruct clock; cbn [start_ptr]; [|exact H].
  destruct (Z.ltb_spec (start_ptr ms - 1) 0); lia.
Qed.

(** Through any run of [measure_start] and [measure_get] calls, whatever
    the clock does, [start_ptr] stays within [0, ARRAY_SIZE]. *)
Theorem start_ptr_stays_in_array (c : ElfClass) (ops : list measure_op)
    (ms : measure_state) :
  start_ptr_ok ms ->
  start_ptr_ok (fold_left (measure_step c) ops ms).
Proof.
  revert ms. induction ops as [|op ops IH]; intros ms Hok; [exact Hok|].
  cbn [fold_left]. apply IH. destruct op; cbn [measure_step].
  - now apply measure_start_ptr_ok.
  - now apply measure_get_ptr_ok.
Qed.

Lemma start_ptr_stays_in_array_witness :
  start_ptr_ok
    (fold_left (measure_step ELFCLASS32)
       [OpGet (Some (mkTimespec 5 0)) 16%nat;
        OpStart (Some (mkTimespec 6 0)); OpStart None;
        OpGet None 16%nat; OpGet (Some (mkTimespec 7 0)) 16%nat]
       measure_initial).
Proof.
  apply (start_ptr_stays_in_array ELFCLASS32
           [OpGet (Some (mkTimespec 5 0)) 16%nat;
            OpStart (Some (mkTimespec 6 0)); OpStart None;
            OpGet None 16%nat; OpGet (Some (mkTimespec 7 0)) 16%nat]
           measure_initial).
  vm_compute. intuition congruence.
Defined.

(** [measure_start] on a full stack stores nothing, keeps [start_ptr]
    and prints its complaint; in no case does it write outside the
    array. *)
Theorem measure_start_full_stack (clock : option timespec)
    (ms : measure_state) :
  start_ptr_ok ms ->
  (start_ptr ms = ARRAY_SIZE ->
     times (measure_start clock ms) = times ms
     /\ start_ptr (measure_start clock ms) = ARRAY_SIZE
     /\ console (measure_start clock ms)
        = (console ms
           ++ [Printf ("DM: measure_start(): can't store time: too much calls!"
                       ++ LF)])%list)
  /\ (forall q, (16 <= q)%nat ->
        times (measure_start clock ms) q = times ms q).
Proof.
  unfold start_ptr_ok, ARRAY_SIZE. intros Hok. split.
  - intros Hfull. unfold measure_start, ARRAY_SIZE. rewrite Hfull.
    repeat split.
  - intros q Hq. unfold measure_start, ARRAY_SIZE.
    destruct (Z.geb_spec (start_ptr ms) 16); [reflexivity|].
    destruct clock; cbn [times]; [|reflexivity].
    unfold set_time. destruct (Nat.eqb_spec q (Z.to_nat (start_ptr ms)));
      [lia|reflexivity].
Qed.

Lemma measure_start_full_stack_witness :
  times (measure_start (Some (mkTimespec 9 0))
           (mkMeasure (fun _ => mkTimespec 0 0) 16 []))
  = (fun _ => mkTimespec 0 0)
  /\ start_ptr (measure_start (Some (mkTimespec 9 0))
                  (mkMeasure (fun _ => mkTimespec 0 0) 16 [])) = ARRAY_SIZE
  /\ console (measure_start (Some (mkTimespec 9 0))
                (mkMeasure (fun _ => mkTimespec 0 0) 16 []))
     = ([] ++ [Printf ("DM: measure_start(): can't store time: too much calls!"
                       ++ LF)])%list.
Proof.
  apply (measure_start_full_stack (Some (mkTimespec 9 0))
           (mkMeasure (fun _ => mkTimespec 0 0) 16 [])).
  - vm_compute. intuition congruence.
  - reflexivity.
Defined.

Lemma measure_get_result (c : ElfClass) (now : timespec) (ms : measure_state)
    (diff : nat) (p : Z) :
  p = (if start_ptr ms - 1 <? 0 then 0 else start_ptr ms - 1) ->
  Z.to_nat p <> diff ->
  nsec_normalized (times ms (Z.to_nat p)) ->
  nsec_normalized now ->
  to_ns (times ms (Z.to_nat p)) <= to_ns now ->
  tv_sec now - tv_sec (times ms (Z.to_nat p)) <= LONG_MAX c ->
  to_ns (times (measure_get c (Some now) ms diff) diff)
  = to_ns now - to_ns (times ms (Z.to_nat p))
  /\ 0 <= tv_sec (times (measure_get c (Some now) ms diff) diff)
  /\ nsec_normalized (times (measure_get c (Some now) ms diff) diff)
  /\ start_ptr (measure_get c (Some now) ms diff) = p
  /\ console (measure_get c (Some now) ms diff) = console ms
  /\ (forall q, q <> diff ->
        times (measure_get c (Some now) ms diff) q = times ms q).
Proof.
  intros Hp Hne Hs Hn Hle Hfit. unfold measure_get. rewrite <- Hp.
  cbn [times start_ptr console].
  assert (Hstart : set_time (times ms) diff now (Z.to_nat p)
                   = times ms (Z.to_nat p)).
  { unfold set_time. destruct (Nat.eqb_spec (Z.to_nat p) diff);
      [contradiction|reflexivity]. }
  assert (Hend : set_time (times ms) diff now diff = now).
  { unfold set_time. now rewrite Nat.eqb_refl. }
  pose proof (measure_diff_correct c (set_time (times ms) diff now)
                (Z.to_nat p) diff diff) as Hdiff.
  rewrite Hstart, Hend in Hdiff.
  destruct (Hdiff Hs Hn Hle Hfit) as (Hval & Hsec & _ & Hnsec).
  repeat split; try assumption; try apply Hnsec.
  intros q Hq. rewrite measure_diff_frame by exact Hq.
  unfold set_time. destruct (Nat.eqb_spec q diff); [contradiction|reflexivity].
Qed.

Lemma measure_start_pushes (t : timespec) (ms : measure_state) :
  start_ptr ms < ARRAY_SIZE ->
  measure_start (Some t) ms
  = mkMeasure (set_time (times ms) (Z.to_nat (start_ptr ms)) t)
      (start_ptr ms + 1) (console ms).
Proof.
  unfold measure_start, ARRAY_SIZE. intros Hp.
  destruct (Z.geb_spec (start_ptr ms) 16); [lia|reflexivity].
Qed.

(** A [measure_get] that follows a [measure_start] leaves at [diff] the
    exact, normalized time between the two clock readings, restores
    [start_ptr], prints nothing and keeps every other entry of the stack:
    the starting points pushed before are still there for the calls that
    close them. *)
Theorem measure_start_get_round_trip (c : ElfClass) (ms : measure_state)
    (t0 t1 : timespec) (diff : nat) :
  0 <= start_ptr ms < ARRAY_SIZE ->
  (16 <= diff)%nat ->
  nsec_normalized t0 -> nsec_normalized t1 ->
  to_ns t0 <= to_ns t1 ->
  tv_sec t1 - tv_sec t0 <= LONG_MAX c ->
  to_ns (times (measure_get c (Some t1) (measure_start (Some t0) ms) diff) diff)
  = to_ns t1 - to_ns t0
  /\ nsec_normalized
       (times (measure_get c (Some t1) (measure_start (Some t0) ms) diff) diff)
  /\ start_ptr (measure_get c (Some t1) (measure_start (Some t0) ms) diff)
     = start_ptr ms
  /\ console (measure_get c (Some t1) (measure_start (Some t0) ms) diff)
     = console ms
  /\ (forall q, q <> diff -> q <> Z.to_nat (start_ptr ms) ->
        times (measure_get c (Some t1) (measure_start (Some t0) ms) diff) q
        = times ms q).
Proof.
  intros Hp Hdiff H0 H1 Hle Hfit.
  rewrite (measure_start_pushes t0 ms) by lia. unfold ARRAY_SIZE in Hp.
  pose proof (measure_get_result c t1
                (mkMeasure (set_time (times ms) (Z.to_nat (start_ptr ms)) t0)
                   (start_ptr ms + 1) (console ms))
                diff (start_ptr ms)) as Hget.
  cbn [times start_ptr console] in Hget.
  assert (Htop : set_time (times ms) (Z.to_nat (start_ptr ms)) t0
                   (Z.to_nat (start_ptr ms)) = t0).
  { unfold set_time. now rewrite Nat.eqb_refl. }
  rewrite Htop in Hget.
  destruct Hget as (Hval & _ & Hn & Hptr & Hcon & Hframe);
    try assumption; try lia.
  { destruct (Z.ltb_spec (start_ptr ms + 1 - 1) 0); lia. }
  repeat split; try assumption; try apply Hn.
  intros q Hq Hq'. rewrite Hframe by exact Hq.
  unfold set_time. destruct (Nat.eqb_spec q (Z.to_nat (start_ptr ms)));
    [contradiction|reflexivity].
Qed.

Lemma measure_start_get_round_trip_witness :
  to_ns (times (measure_get ELFCLASS32 (Some (mkTimespec 12 100000000))
                  (measure_start (Some (mkTimespec 10 900000000))
                     measure_initial) 16) 16%nat)
  = to_ns (mkTimespec 12 100000000) - to_ns (mkTimespec 10 900000000).
Proof.
  apply (measure_start_get_round_trip ELFCLASS32 measure_initial
           (mkTimespec 10 900000000) (mkTimespec 12 100000000) 16);
    first [lia | vm_compute; intuition congruence].
Defined.





(** On an empty stack [measure_get] measures from the entry at the bottom
    of the array, the previous top, and leaves [start_ptr] at 0: an
    unmatched call repeats the last outermost starting point. *)
Theorem measure_get_empty_stack (c : ElfClass) (ms : measure_state)
    (now : timespec) (diff : nat) :
  start_ptr ms = 0 ->
  (16 <= diff)%nat ->
  nsec_normalized (times ms 0%nat) -> nsec_normalized now ->
  to_ns (times ms 0%nat) <= to_ns now ->
  tv_sec now - tv_sec (times ms 0%nat) <= LONG_MAX c ->
  start_ptr (measure_get c (Some now) ms diff) = 0
  /\ to_ns (times (measure_get c (Some now) ms diff) diff)
     = to_ns now - to_ns (times ms 0%nat)
  /\ (forall q, q <> diff ->
        times (measure_get c (Some now) ms diff) q = times ms q).
Proof.
  intros Hp Hdiff Hs Hn Hle Hfit.
  destruct (measure_get_result c now ms diff 0)
    as (Hval & _ & _ & Hptr & _ & Hframe);
    try assumption; try (cbn; lia).
  - rewrite Hp. reflexivity.
  - split; [exact Hptr|]. split; [exact Hval|exact Hframe].
Qed.

Lemma measure_get_empty_stack_witness :
  start_ptr (measure_get ELFCLASS32 (Some (mkTimespec 7 0)) measure_initial 16)
  = 0
  /\ to_ns (times (measure_get ELFCLASS32 (Some (mkTimespec 7 0))
                     measure_initial 16) 16%nat)
     = to_ns (mkTimespec 7 0) - to_ns (times measure_initial 0%nat)
  /\ (forall q, q <> 16%nat ->
        times (measure_get ELFCLASS32 (Some (mkTimespec 7 0))
                 measure_initial 16) q = times measure_initial q).
Proof.
  apply (measure_get_empty_stack ELFCLASS32 measure_initial (mkTimespec 7 0) 16);
    first [lia | vm_compute; intuition congruence].
Defined.

Lemma is_log_available_spec (s : log_state) :
  Config (fst (is_log_available s)) = Config s
  /\ emitted (fst (is_log_available s)) = emitted s
  /\ cfg_mtx (fst (is_log_available s)) = false
  /\ (snd (is_log_available s) = true
      <-> level_mask (Config s) <> LOG_DISABLED
          /\ sink (Config s) <> LOG_SINK_UNSPECIFIED).
Proof.
  unfold is_log_available, log_get_sink, log_get_level.
  cbn [fst snd lock unlock Config emitted cfg_mtx].
  repeat split.
  - apply andb_true_iff in H. destruct H as [Hm _].
    destruct (Z.eqb_spec (level_mask (Config s)) LOG_DISABLED);
      [discriminate|assumption].
  - apply andb_true_iff in H. destruct H as [_ Hk].
    intros Heq. rewrite Heq in Hk. discriminate.
  - intros [Hm Hk]. apply andb_true_iff. split.
    + destruct (Z.eqb_spec (level_mask (Config s)) LOG_DISABLED);
        [contradiction|reflexivity].
    + destruct (sink (Config s)); [contradiction| |]; reflexivity.
Qed.

(** [measure_print] reports on exactly one channel. With the logger
    disabled or without a sink the line goes to the terminal as
    [DM: <comment> took <sec>.<nsec, nine digits> seconds] and the logger
    is untouched. Otherwise nothing goes to the terminal and the line is
    handed to the logger at DEBUG level: a file logger whose mask holds the
    DEBUG bit writes it, and a logger whose mask lacks that bit drops it,
    so the measurement is shown nowhere. *)
Theorem measure_print_routing (c : ElfClass) (get_time : log_state -> string)
    (clock : option timespec) (ms : measure_state) (s : log_state)
    (comment : string) :
  let ms1 := measure_get c clock ms loc_print_diff in
  let text := comment ++ " took " ++ fmt_d (tv_sec (times ms1 loc_print_diff))
              ++ "." ++ fmt_0wd 9 (tv_nsec (times ms1 loc_print_diff))
              ++ " seconds" in
  let r := measure_print c get_time clock ms s comment in
  Config (snd r) = Config s
  /\ (level_mask (Config s) = LOG_DISABLED
      \/ sink (Config s) = LOG_SINK_UNSPECIFIED ->
        console (fst r) = (console ms1 ++ [Printf ("DM: " ++ text ++ LF)])%list
        /\ emitted (snd r) = emitted s)
  /\ (level_mask (Config s) <> LOG_DISABLED ->
      sink (Config s) <> LOG_SINK_UNSPECIFIED ->
        console (fst r) = console ms1
        /\ (Z.land (level_mask (Config s)) LOG_LEVEL_DEBUG = 0 ->
              emitted (snd r) = emitted s)
        /\ (forall stream,
              Z.land (level_mask (Config s)) LOG_LEVEL_DEBUG <> 0 ->
              sink (Config s) = LOG_SINK_FILE ->
              file (Config s) = Some stream ->
              exists stamp,
                emitted (snd r)
                = (emitted s
                   ++ [FileWrite stream stamp; FileWrite stream text;
                       FileWrite stream LF])%list)).
Proof.
  intros ms1 text r.
  destruct (is_log_available_spec s) as (Hcfg & Hout & _ & Havail).
  subst r. unfold measure_print. fold ms1. fold text.
  destruct (snd (is_log_available s)) eqn:Hyes.
  - destruct (proj1 Havail eq_refl) as [Hm Hk]. cbn [fst snd].
    split.
    + unfold LOG.
      destruct (log_log_keeps_config (get_time (fst (is_log_available s)))
                  (fst (is_log_available s)) LOG_LEVEL_DEBUG "measure.c" 59
                  text) as (Hc & _).
      now rewrite Hc.
    + split; [intros [H|H]; contradiction|].
      intros _ _. split; [reflexivity|]. split.
      * intros Hbit. unfold LOG. rewrite log_log_off.
        -- exact Hout.
        -- right. right. now rewrite Hcfg.
      * intros stream Hbit Hsink Hfile. eexists. unfold LOG.
        rewrite (log_log_file_on _ _ _ _ _ _ stream).
        -- rewrite Hout. reflexivity.
        -- now rewrite Hcfg.
        -- now rewrite Hcfg.
        -- rewrite Hcfg. repeat split; assumption.
  - cbn [fst snd console]. split; [exact Hcfg|]. split.
    + intros _. split; [reflexivity|exact Hout].
    + intros Hm Hk. assert (Hno : false = true) by (apply Havail; now split).
      discriminate.
Qed.

Example measure_print_samples :
  (console (fst (measure_print ELFCLASS32 sample_clock
                   (Some (mkTimespec 12 100000000))
                   (measure_start (Some (mkTimespec 10 900000000))
                      measure_initial)
                   (mkLogState Config_initial false []) "some_routine()")),
   emitted (snd (measure_print ELFCLASS32 sample_clock
                   (Some (mkTimespec 12 100000000))
                   (measure_start (Some (mkTimespec 10 900000000))
                      measure_initial)
                   sample_logger "some_routine()")))
  = ([Printf ("DM: some_routine() took 1.200000000 seconds" ++ LF)],
     [FileWrite 2 "2007-01-01 00:00:00.000 [DEBUG] [dm] measure.c:59: ";
      FileWrite 2 "some_routine() took 1.200000000 seconds";
      FileWrite 2 LF]).
Proof. vm_compute. reflexivity. Qed.

(** ** Timers *)

Lemma land_lor_same (x b : Z) : Z.land (Z.lor x b) b = b.
Proof.
  apply Z.bits_inj'. intros n _. rewrite Z.land_spec, Z.lor_spec.
  destruct (Z.testbit x n), (Z.testbit b n); reflexivity.
Qed.

Lemma land_lnot_same (x b : Z) : Z.land (Z.land x (Z.lnot b)) b = 0.
Proof.
  apply Z.bits_inj'. intros n Hn.
  rewrite !Z.land_spec, Z.lnot_spec, Z.bits_0 by exact Hn.
  destruct (Z.testbit x n), (Z.testbit b n); reflexivity.
Qed.

Lemma land_lor_other (x a b : Z) :
  Z.land a b = 0 -> Z.land (Z.lor x a) b = Z.land x b.
Proof.
  intros Hab. rewrite Z.land_lor_distr_l, Hab. apply Z.lor_0_r.
Qed.

Lemma land_lnot_other (x a b : Z) :
  Z.land a b = 0 -> Z.land (Z.land x (Z.lnot a)) b = Z.land x b.
Proof.
  intros Hab. apply Z.bits_inj'. intros n Hn.
  assert (Hbit : Z.testbit (Z.land a b) n = false)
    by (rewrite Hab; apply Z.bits_0).
  rewrite Z.land_spec in Hbit.
  rewrite !Z.land_spec, Z.lnot_spec by exact Hn.
  destruct (Z.testbit x n), (Z.testbit a n), (Z.testbit b n);
    try reflexivity; discriminate.
Qed.

Lemma wrap_int64_small (x : Z) : - 2 ^ 63 <= x < 2 ^ 63 -> wrap_int64 x = x.
Proof.
  intros H. unfold wrap_int64, wrap_signed.
  change (2 ^ (64 - 1)) with (2 ^ 63). rewrite Z.mod_small; lia.
Qed.

Lemma long_within_int64 (c : ElfClass) :
  - 2 ^ 63 <= LONG_MIN c /\ LONG_MAX c < 2 ^ 63.
Proof. destruct c; cbv; split; congruence. Qed.

(** The deadline [timer_set] computes from a successful clock reading. *)
Lemma timer_set_deadline (c : ElfClass) (get_time : log_state -> string)
    (now : timespec) (s : log_state) (t : timer) (msec : Z) :
  0 <= msec ->
  nsec_normalized now ->
  LONG_MIN c <= tv_sec now ->
  tv_sec now + msec / 1000 + 1 <= LONG_MAX c ->
  snd (timer_set c get_time (Some now) s t msec) = s
  /\ start (fst (timer_set c get_time (Some now) s t msec)) = now
  /\ status (fst (timer_set c get_time (Some now) s t msec))
     = Z.lor (status t) STATUS_VALID
  /\ nsec_normalized (deadline (fst (timer_set c get_time (Some now) s t msec)))
  /\ to_ns (deadline (fst (timer_set c get_time (Some now) s t msec)))
     = to_ns now + msec * 1000000.
Proof.
  unfold nsec_normalized, to_ns, NANOSECONDS_IN_SECOND.
  intros Hmsec Hnow Hmin Hmax.
  pose proof (long_within_int64 c) as [H64lo H64hi].
  pose proof (LONG_MAX_large c) as Hlarge.
  assert (HminMax : LONG_MIN c = - LONG_MAX c - 1)
    by (unfold LONG_MIN, LONG_MAX; lia).
  unfold timer_set.
  destruct (Z.ltb_spec msec 0) as [|_]; [lia|].
  unfold MILLISECONDS_IN_SECOND, NANOSECONDS_IN_MILLISECOND,
    NANOSECONDS_IN_SECOND.
  rewrite Z.quot_div_nonneg, Z.rem_mod_nonneg by lia.
  pose proof (Z.div_mod msec 1000 ltac:(lia)) as Hdm.
  pose proof (Z.mod_pos_bound msec 1000 ltac:(lia)) as Hr.
  assert (Hq : 0 <= msec / 1000) by (apply Z.div_pos; lia).
  set (q := msec / 1000) in *. set (r := msec mod 1000) in *.
  rewrite (wrap_int64_small (tv_sec now + q)) by lia.
  rewrite (wrap_long_small c (tv_sec now + q)) by (unfold is_long; lia).
  rewrite (wrap_int64_small (r * 1000000)) by lia.
  rewrite (wrap_int64_small (tv_nsec now + r * 1000000)) by lia.
  rewrite (wrap_long_small c (tv_nsec now + r * 1000000))
    by (unfold is_long; lia).
  destruct (Z.geb_spec (tv_nsec now + r * 1000000) 1000000000) as [Hc|Hc].
  - rewrite (wrap_long_small c (tv_sec now + q + 1)) by (unfold is_long; lia).
    rewrite (wrap_long_small c (tv_nsec now + r * 1000000 - 1000000000))
      by (unfold is_long; lia).
    cbn [fst snd valid_set start status deadline tv_sec tv_nsec].
    repeat split; lia.
  - cbn [fst snd valid_set start status deadline tv_sec tv_nsec].
    repeat split; lia.
Qed.

Lemma valid_of_valid_set (t : timer) : valid (valid_set t) <> 0.
Proof.
  unfold valid, valid_set. cbn [status]. rewrite land_lor_same. discriminate.
Qed.

Lemma timer_remaining_expired (c : ElfClass) (now : timespec) (t : timer) :
  valid t <> 0 ->
  nsec_normalized now -> nsec_normalized (deadline t) ->
  to_ns (deadline t) <= to_ns now ->
  timer_remaining c now t = 0.
Proof.
  intros Hvalid Hnow Hdl Hexp. unfold timer_remaining.
  destruct (Z.eqb_spec (valid t) 0) as [|_]; [contradiction|].
  cbn [timer_store loc_diff loc_deadline].
  rewrite (timespec_cmp_expired _ _ Hnow Hdl).
  destruct (Z.geb_spec (to_ns now) (to_ns (deadline t))); [reflexivity|lia].
Qed.

Lemma timer_expired_spec (now : timespec) (t : timer) :
  valid t <> 0 ->
  nsec_normalized now -> nsec_normalized (deadline t) ->
  timer_expired now t = if to_ns now >=? to_ns (deadline t) then 1 else 0.
Proof.
  intros Hvalid Hnow Hdl. unfold timer_expired.
  destruct (Z.eqb_spec (valid t) 0) as [|_]; [contradiction|].
  now rewrite (timespec_cmp_expired _ _ Hnow Hdl).
Qed.

(** A timer set for [msec >= 0] milliseconds at the time [t0] answers,
    at any later time [t1]: elapsed, the whole milliseconds from [t0] to
    [t1]; remaining, the whole milliseconds up to [t0 + msec], and 0 from
    then on; expired, 1 exactly from [t0 + msec] on. Asked at [t0] itself
    it has [msec] remaining and 0 elapsed. *)
Theorem timer_set_then_query (c : ElfClass) (get_time : log_state -> string)
    (t0 t1 : timespec) (s : log_state) (t : timer) (msec : Z) :
  0 <= msec <= LONG_MAX c ->
  nsec_normalized t0 -> nsec_normalized t1 ->
  LONG_MIN c <= tv_sec t0 ->
  tv_sec t0 + msec / 1000 + 1 <= LONG_MAX c ->
  to_ns t0 <= to_ns t1 ->
  (to_ns t1 - to_ns t0) / 1000000 <= LONG_MAX c ->
  timer_elapsed c t1 (fst (timer_set c get_time (Some t0) s t msec))
  = (to_ns t1 - to_ns t0) / 1000000
  /\ timer_remaining c t1 (fst (timer_set c get_time (Some t0) s t msec))
     = (if to_ns t1 >=? to_ns t0 + msec * 1000000 then 0
        else (to_ns t0 + msec * 1000000 - to_ns t1) / 1000000)
  /\ timer_expired t1 (fst (timer_set c get_time (Some t0) s t msec))
     = (if to_ns t1 >=? to_ns t0 + msec * 1000000 then 1 else 0)
  /\ timer_remaining c t0 (fst (timer_set c get_time (Some t0) s t msec))
     = msec
  /\ timer_elapsed c t0 (fst (timer_set c get_time (Some t0) s t msec)) = 0.
Proof.
  intros Hmsec H0 H1 Hmin Hmax Hle Hfit.
  destruct (timer_set_deadline c get_time t0 s t msec)
    as (_ & Hstart & Hstatus & Hdn & Hdl); try assumption; try lia.
  set (t' := fst (timer_set c get_time (Some t0) s t msec)) in *.
  assert (Hvalid : valid t' <> 0).
  { unfold valid. rewrite Hstatus, land_lor_same. discriminate. }
  assert (Hrem : forall now,
             nsec_normalized now -> to_ns t0 <= to_ns now ->
             timer_remaining c now t'
             = (if to_ns now >=? to_ns t0 + msec * 1000000 then 0
                else (to_ns t0 + msec * 1000000 - to_ns now) / 1000000)).
  { intros now Hn Hafter.
    destruct (Z.geb_spec (to_ns now) (to_ns t0 + msec * 1000000)) as [He|Hr].
    - apply timer_remaining_expired; try assumption. lia.
    - assert (Hbound : (to_ns (deadline t') - to_ns now) / 1000000
                       <= LONG_MAX c).
      { apply Z.le_trans with (m := msec * 1000000 / 1000000).
        - apply Z.div_le_mono; lia.
        - rewrite Z.div_mul by lia. lia. }
      destruct (timer_remaining_exact c now t' Hvalid Hn Hdn Hbound)
        as [_ Heq].
      rewrite Heq by lia. now rewrite Hdl. }
  split; [|split; [|split; [|split]]].
  - destruct (timer_elapsed_exact c t1 t' Hvalid) as [_ Heq];
      try (rewrite Hstart); try assumption.
    now rewrite Heq, Hstart.
  - now apply Hrem.
  - rewrite (timer_expired_spec t1 t' Hvalid H1 Hdn). now rewrite Hdl.
  - rewrite (Hrem t0 H0 (Z.le_refl _)).
    destruct (Z.geb_spec (to_ns t0) (to_ns t0 + msec * 1000000)); [lia|].
    replace (to_ns t0 + msec * 1000000 - to_ns t0) with (msec * 1000000)
      by lia.
    apply Z.div_mul. lia.
  - destruct (timer_elapsed_exact c t0 t' Hvalid) as [_ Heq];
      try (rewrite Hstart); try assumption; try lia.
    + rewrite Z.sub_diag. cbn. pose proof (LONG_MAX_large c). lia.
    + rewrite Heq, Hstart, Z.sub_diag. reflexivity.
Qed.

Lemma timer_set_then_query_witness :
  timer_remaining ELFCLASS32 (mkTimespec 100 0)
    (fst (timer_set ELFCLASS32 sample_clock (Some (mkTimespec 100 0))
            sample_logger (mkTimer 0 (mkTimespec 0 0) (mkTimespec 0 0)) 5000))
  = 5000.
Proof.
  apply (timer_set_then_query ELFCLASS32 sample_clock (mkTimespec 100 0)
           (mkTimespec 103 250000000) sample_logger
           (mkTimer 0 (mkTimespec 0 0) (mkTimespec 0 0)) 5000);
    vm_compute; intuition congruence.
Defined.

Lemma valid_of_valid_unset (t : timer) : valid (valid_unset t) = 0.
Proof. unfold valid, valid_unset. cbn [status]. apply land_lnot_same. Qed.

Lemma invalid_queries (c : ElfClass) (now : timespec) (t : timer) :
  valid t = 0 ->
  timer_remaining c now t = -1 /\ timer_elapsed c now t = -1
  /\ timer_expired now t = -1 /\ timer_valid t = 0.
Proof.
  intros Hv. unfold timer_remaining, timer_elapsed, timer_expired, timer_valid.
  rewrite Hv. repeat split.
Qed.

(** [timer_set] with a negative [msec] leaves the times and the
    initialized bit alone, clears the valid bit, so that every query
    answers -1 (and [timer_valid] 0), and logs one error. With
    [msec >= 0] and a normalized clock reading [now] such that
    [tv_sec now + msec / 1000 + 1] is a [long] (the seconds of the
    deadline do not overflow), it logs nothing, keeps the initialized
    bit, records [now] as the start and a normalized deadline exactly
    [msec] milliseconds later, and the timer is valid. *)
Theorem timer_set_outcome (c : ElfClass) (get_time : log_state -> string)
    (clock : option timespec) (now : timespec) (s : log_state) (t : timer)
    (msec : Z) :
  (msec < 0 ->
     start (fst (timer_set c get_time clock s t msec)) = start t
     /\ deadline (fst (timer_set c get_time clock s t msec)) = deadline t
     /\ initialized (fst (timer_set c get_time clock s t msec)) = initialized t
     /\ timer_remaining c now (fst (timer_set c get_time clock s t msec)) = -1
     /\ timer_elapsed c now (fst (timer_set c get_time clock s t msec)) = -1
     /\ timer_expired now (fst (timer_set c get_time clock s t msec)) = -1
     /\ timer_valid (fst (timer_set c get_time clock s t msec)) = 0
     /\ snd (timer_set c get_time clock s t msec)
        = log_log (get_time s) s LOG_LEVEL_ERROR "timer.c" 48
            ("timer_set(): negative time interval: " ++ fmt_d msec))
  /\ (0 <= msec ->
      nsec_normalized now ->
      LONG_MIN c <= tv_sec now ->
      tv_sec now + msec / 1000 + 1 <= LONG_MAX c ->
        snd (timer_set c get_time (Some now) s t msec) = s
        /\ start (fst (timer_set c get_time (Some now) s t msec)) = now
        /\ initialized (fst (timer_set c get_time (Some now) s t msec))
           = initialized t
        /\ timer_valid (fst (timer_set c get_time (Some now) s t msec)) = 1
        /\ nsec_normalized
             (deadline (fst (timer_set c get_time (Some now) s t msec)))
        /\ to_ns (deadline (fst (timer_set c get_time (Some now) s t msec)))
           = to_ns now + msec * 1000000).
Proof.
  split.
  - intros Hneg. unfold timer_set.
    destruct (Z.ltb_spec msec 0) as [_|]; [|lia]. cbn [fst snd].
    pose proof (invalid_queries c now (valid_unset t) (valid_of_valid_unset t))
      as (Hr & He & Hx & Hv).
    repeat split; try assumption.
    unfold initialized, valid_unset. cbn [status].
    now apply land_lnot_other.
  - intros Hmsec Hnow Hmin Hmax.
    destruct (timer_set_deadline c get_time now s t msec Hmsec Hnow Hmin Hmax)
      as (Hs & Hstart & Hstatus & Hdn & Hdl).
    repeat split; try assumption; try apply Hdn.
    + unfold initialized. rewrite Hstatus. now apply land_lor_other.
    + unfold timer_valid, valid. rewrite Hstatus, land_lor_same. reflexivity.
Qed.

(** For a valid timer the two questions agree: [timer_expired] answers 1
    exactly from the deadline on, and then [timer_remaining] answers 0;
    a positive [timer_remaining] means not expired. The converse fails in
    the last millisecond: when the milliseconds left fit [long], before
    the deadline [timer_remaining] is 0 exactly when less than a
    millisecond is left. *)
Theorem expired_and_remaining_agree (c : ElfClass) (now : timespec)
    (t : timer) :
  valid t <> 0 ->
  nsec_normalized now -> nsec_normalized (deadline t) ->
  (timer_expired now t = 1 <-> to_ns (deadline t) <= to_ns now)
  /\ (timer_expired now t = 1 -> timer_remaining c now t = 0)
  /\ (0 < timer_remaining c now t -> timer_expired now t = 0)
  /\ ((to_ns (deadline t) - to_ns now) / 1000000 <= LONG_MAX c ->
      timer_expired now t = 0 ->
        (timer_remaining c now t = 0
         <-> to_ns (deadline t) - to_ns now < 1000000)).
Proof.
  intros Hvalid Hnow Hdl.
  pose proof (timer_expired_spec now t Hvalid Hnow Hdl) as Hexp.
  destruct (Z.geb_spec (to_ns now) (to_ns (deadline t))) as [Hge|Hlt].
  - pose proof (timer_remaining_expired c now t Hvalid Hnow Hdl Hge) as H0.
    rewrite Hexp, H0. repeat split; intros; try lia; try discriminate.
  - rewrite Hexp. split; [|split; [|split]].
    + split; intros; [discriminate|lia].
    + discriminate.
    + reflexivity.
    + intros Hfit _.
      destruct (timer_remaining_exact c now t Hvalid Hnow Hdl Hfit)
        as [_ Hrem].
      rewrite (Hrem Hlt).
      assert (Hdiv : 0 <= (to_ns (deadline t) - to_ns now) / 1000000)
        by (apply Z.div_pos; lia).
      split; intros Hzero.
      * apply Z.div_small_iff in Hzero; lia.
      * apply Z.div_small. lia.
Qed.

Lemma expired_and_remaining_agree_witness :
  (timer_expired (mkTimespec 10 999500000)
     (mkTimer 1 (mkTimespec 0 0) (mkTimespec 11 0)) = 1
   <-> to_ns (deadline (mkTimer 1 (mkTimespec 0 0) (mkTimespec 11 0)))
       <= to_ns (mkTimespec 10 999500000))
  /\ (timer_remaining ELFCLASS32 (mkTimespec 10 999500000)
        (mkTimer 1 (mkTimespec 0 0) (mkTimespec 11 0)) = 0
      <-> to_ns (deadline (mkTimer 1 (mkTimespec 0 0) (mkTimespec 11 0)))
          - to_ns (mkTimespec 10 999500000) < 1000000).
Proof.
  destruct (expired_and_remaining_agree ELFCLASS32 (mkTimespec 10 999500000)
              (mkTimer 1 (mkTimespec 0 0) (mkTimespec 11 0)))
    as (Hfirst & _ & _ & Hlast);
    [discriminate
    |vm_compute; intuition congruence
    |vm_compute; intuition congruence
    |].
  split; [exact Hfirst|].
  apply Hlast; [vm_compute; congruence|reflexivity].
Defined.

(** [timer_invalidate] clears the valid bit only: the initialized bit
    and the times stay, and from then on [timer_remaining],
    [timer_elapsed] and [timer_expired] answer -1 and [timer_valid] 0,
    whatever the clock reads. *)
Theorem timer_invalidate_outcome (c : ElfClass) (now : timespec) (t : timer) :
  initialized (timer_invalidate t) = initialized t
  /\ start (timer_invalidate t) = start t
  /\ deadline (timer_invalidate t) = deadline t
  /\ timer_remaining c now (timer_invalidate t) = -1
  /\ timer_elapsed c now (timer_invalidate t) = -1
  /\ timer_expired now (timer_invalidate t) = -1
  /\ timer_valid (timer_invalidate t) = 0.
Proof.
  pose proof (invalid_queries c now (timer_invalidate t)
                (valid_of_valid_unset t)) as (Hr & He & Hx & Hv).
  repeat split; try assumption.
  unfold initialized, timer_invalidate, valid_unset. cbn [status].
  now apply land_lnot_other.
Qed.

Lemma initialized_after_set (t : timer) : initialized (initialized_set t) <> 0.
Proof.
  unfold initialized, initialized_set. cbn [status].
  rewrite land_lor_same. discriminate.
Qed.

(** [timer_init] decides on the initialized bit alone. With the bit clear
    it makes the status exactly [STATUS_INITIALIZED] (initialized, not
    valid), frees the mutex and logs nothing; with the bit set, also in a
    never initialized object whose status happens to hold it, it changes
    nothing and logs a warning. So a second [timer_init] changes nothing,
    and [timer_destroy] after [timer_init] always leaves status 0 and the
    mutex destroyed, while [timer_destroy] of a timer without the bit
    changes nothing. *)
Theorem timer_init_destroy (get_time : log_state -> string)
    (s s' : log_state) (lt : locked_timer) :
  (initialized (timer_data lt) = 0 ->
     timer_init get_time s lt
     = (mkLockedTimer
          (mkTimer STATUS_INITIALIZED (start (timer_data lt))
                   (deadline (timer_data lt)))
          MutexFree, s)
     /\ fst (timer_destroy get_time s lt) = lt)
  /\ (initialized (timer_data lt) <> 0 ->
        timer_init get_time s lt
        = (lt, log_log (get_time s) s LOG_LEVEL_WARN "timer.c" 26
                 "timer_init(): timer is already initialized"))
  /\ fst (timer_init get_time s' (fst (timer_init get_time s lt)))
     = fst (timer_init get_time s lt)
  /\ initialized (timer_data (fst (timer_init get_time s lt))) <> 0
  /\ fst (timer_destroy get_time s' (fst (timer_init get_time s lt)))
     = mkLockedTimer
         (mkTimer 0 (start (timer_data lt)) (deadline (timer_data lt)))
         MutexUninitialized.
Proof.
  assert (Hinit : initialized (timer_data (fst (timer_init get_time s lt)))
                  <> 0).
  { unfold timer_init.
    destruct (Z.eqb_spec (initialized (timer_data lt)) 0) as [H0|H1];
      cbn [fst timer_data]; [apply initialized_after_set|exact H1]. }
  split; [|split; [|split; [|split]]].
  - intros H0. unfold timer_init, timer_destroy. rewrite H0. cbn [Z.eqb fst].
    split; reflexivity.
  - intros H1. unfold timer_init.
    destruct (Z.eqb_spec (initialized (timer_data lt)) 0);
      [contradiction|reflexivity].
  - unfold timer_init at 1.
    destruct (Z.eqb_spec
                (initialized (timer_data (fst (timer_init get_time s lt)))) 0);
      [contradiction|reflexivity].
  - exact Hinit.
  - unfold timer_destroy.
    destruct (Z.eqb_spec
                (initialized (timer_data (fst (timer_init get_time s lt)))) 0);
      [contradiction|]. cbn [fst].
    unfold timer_init.
    destruct (Z.eqb_spec (initialized (timer_data lt)) 0); reflexivity.
Qed.

(** On a timer without the initialized bit every locked operation leaves
    the timer as it is, logs one error, and the four that return a value
    return -1, [timer_valid_locked] included. On a timer with the bit they
    answer what the unlocked operations answer and return with the mutex
    released; [timer_set_locked] and [timer_invalidate_locked] keep the
    bit, so the timer stays usable with the locked operations. *)
Theorem locked_operations (c : ElfClass) (get_time : log_state -> string)
    (now : timespec) (clock : option timespec) (s : log_state)
    (lt : locked_timer) (msec : Z) :
  (initialized (timer_data lt) = 0 ->
     timer_remaining_locked c get_time now s lt
     = (lt, LOGE get_time s 126 (cant_lock "timer_remaining_locked"), -1)
     /\ timer_elapsed_locked c get_time now s lt
        = (lt, LOGE get_time s 139 (cant_lock "timer_elapsed_locked"), -1)
     /\ timer_expired_locked get_time now s lt
        = (lt, LOGE get_time s 152 (cant_lock "timer_expired_locked"), -1)
     /\ timer_valid_locked get_time s lt
        = (lt, LOGE get_time s 165 (cant_lock "timer_valid_locked"), -1)
     /\ timer_set_locked c get_time clock s lt msec
        = (lt, LOGE get_time s 115 (cant_lock "timer_set_locked"))
     /\ timer_invalidate_locked get_time s lt
        = (lt, LOGE get_time s 178 (cant_lock "timer_invalidate_locked")))
  /\ (initialized (timer_data lt) <> 0 ->
        timer_remaining_locked c get_time now s lt
        = (pthread_mutex_unlock lt, s, timer_remaining c now (timer_data lt))
        /\ timer_elapsed_locked c get_time now s lt
           = (pthread_mutex_unlock lt, s, timer_elapsed c now (timer_data lt))
        /\ timer_expired_locked get_time now s lt
           = (pthread_mutex_unlock lt, s, timer_expired now (timer_data lt))
        /\ timer_valid_locked get_time s lt
           = (pthread_mutex_unlock lt, s, timer_valid (timer_data lt))
        /\ timer_set_locked c get_time clock s lt msec
           = (mkLockedTimer (fst (timer_set c get_time clock s (timer_data lt)
                                    msec)) MutexFree,
              snd (timer_set c get_time clock s (timer_data lt) msec))
        /\ timer_invalidate_locked get_time s lt
           = (mkLockedTimer (timer_invalidate (timer_data lt)) MutexFree, s)
        /\ initialized (timer_data (fst (timer_set_locked c get_time clock s
                                           lt msec))) <> 0
        /\ initialized (timer_data (fst (timer_invalidate_locked get_time s lt)))
           <> 0).
Proof.
  unfold timer_remaining_locked, timer_elapsed_locked, timer_expired_locked,
    timer_valid_locked, timer_set_locked, timer_invalidate_locked.
  split.
  - intros H0. rewrite H0. cbn [Z.eqb]. repeat split.
  - intros H1.
    destruct (Z.eqb_spec (initialized (timer_data lt)) 0); [contradiction|].
    cbn [pthread_mutex_lock pthread_mutex_unlock timer_data timer_lock fst snd].
    repeat split.
    + unfold timer_set.
      destruct (msec <? 0); cbn [fst];
        unfold initialized, valid_unset, valid_set in *; cbn [status].
      * now rewrite land_lnot_other.
      * now rewrite land_lor_other.
    + unfold initialized, timer_invalidate, valid_unset in *. cbn [status].
      now rewrite land_lnot_other.
Qed.

(** ** Frame capture: what the scans return *)

Lemma to_short_range (x : Z) : -32768 <= to_short x <= 32767.
Proof.
  unfold to_short, wrap_signed. change (2 ^ (16 - 1)) with 32768.
  change (2 ^ 16) with 65536.
  pose proof (Z.mod_pos_bound (x + 32768) 65536 ltac:(lia)). lia.
Qed.

Lemma ABS_short_range (x : Z) : 0 <= ABS (to_short x) <= 32768.
Proof.
  pose proof (to_short_range x). unfold ABS.
  destruct (Z.ltb_spec (to_short x) 0); lia.
Qed.

Lemma scan_backward_found (k : nat) (m : memory) :
  forall addr ro0 ss0 ro ss,
    0 <= ro0 < 2 ^ 32 -> 0 <= ss0 <= 32768 ->
    scan_backward k m addr ro0 ss0 = Some (ScanFound ro ss) ->
    0 < ro < 2 ^ 32 /\ 0 < ss <= 32768.
Proof.
  induction k as [|k IH]; intros addr ro0 ss0 ro ss Hro Hss Hscan;
    [discriminate|].
  cbn [scan_backward] in Hscan.
  assert (Hnext : forall ro1 ss1,
            0 <= ro1 < 2 ^ 32 -> 0 <= ss1 <= 32768 ->
            (if (ro1 =? 0) || (ss1 =? 0)
             then scan_backward k m (addr - 4) ro1 ss1
             else Some (ScanFound ro1 ss1)) = Some (ScanFound ro ss) ->
            0 < ro < 2 ^ 32 /\ 0 < ss <= 32768).
  { intros ro1 ss1 Hro1 Hss1 H.
    destruct (Z.eqb_spec ro1 0); cbn [orb] in H; [now apply (IH _ _ _ _ _ Hro1 Hss1 H)|].
    destruct (Z.eqb_spec ss1 0); [now apply (IH _ _ _ _ _ Hro1 Hss1 H)|].
    injection H as <- <-. lia. }
  destruct (Z.land (load m addr) 0xffff0000 =? 0x27bd0000).
  - apply (Hnext _ _ Hro (ABS_short_range _) Hscan).
  - destruct (Z.land (load m addr) 0xffff0000 =? 0xafbf0000).
    + refine (Hnext _ _ _ Hss Hscan).
      apply Z.mod_pos_bound. reflexivity.
    + destruct (Z.land (load m addr) 0xffff0000 =? 0x3c1c0000);
        [discriminate|]. apply (Hnext _ _ Hro Hss Hscan).
Qed.

Lemma scan_forward_found (k : nat) (m : memory) :
  forall addr s, scan_forward k m addr = Some s -> 0 <= s <= 32768.
Proof.
  induction k as [|k IH]; intros addr s Hscan; [discriminate|].
  cbn [scan_forward] in Hscan.
  destruct (Z.land (load m addr) 0xffff0000 =? 0x27bd0000).
  - destruct (Z.eqb_spec (ABS (to_short (Z.land (load m addr) 0xffff))) 0).
    + now apply (IH _ _ Hscan).
    + injection Hscan as <-. apply ABS_short_range.
  - destruct (load m addr =? 0x03e00008).
    + injection Hscan as <-. lia.
    + now apply (IH _ _ Hscan).
Qed.

(** A scan that ends gives usable numbers only: the forward scan a frame
    size within [0, 32768] (0 for [jr ra]); a backward scan that finds a
    frame, a frame size within [1, 32768] and a nonzero offset of the
    saved return address. A stack adjustment by 0 and a store of [ra] at
    offset 0 are not taken for an answer: the scan reads on past them. *)
Theorem scans_return_usable_frames (k : nat) (m : memory) (addr : Z) :
  (forall s, scan_forward k m addr = Some s -> 0 <= s <= 32768)
  /\ (forall ro ss,
        scan_backward k m addr 0 0 = Some (ScanFound ro ss) ->
        0 < ro < 2 ^ 32 /\ 0 < ss <= 32768)
  /\ (load m addr = 0xafbf0000 \/ load m addr = 0x27bd0000 ->
      scan_backward (S k) m addr 0 0 = scan_backward k m (addr - 4) 0 0).
Proof.
  split; [|split].
  - intros s. apply scan_forward_found.
  - intros ro ss. apply scan_backward_found; lia.
  - intros Hload.
    cbn [scan_backward]. destruct Hload as [-> | ->]; reflexivity.
Qed.

(** ** Frame capture: following a chain of callers *)

Lemma slot_distinct (buffer i j : Z) :
  0 <= i < 2 ^ 30 -> 0 <= j < 2 ^ 30 ->
  addr32 (buffer + 4 * i) = addr32 (buffer + 4 * j) -> i = j.
Proof.
  unfold addr32, wrap_unsigned. change (2 ^ 30) with 1073741824.
  change (2 ^ 32) with 4294967296. intros Hi Hj Heq.
  Z.div_mod_to_equations. lia.
Qed.

Lemma load_store_same (m : memory) (a v : Z) :
  0 <= v < 2 ^ 32 -> load (store m a v) a = v.
Proof.
  intros Hv. unfold load, store. rewrite Z.eqb_refl.
  apply Z.mod_small. exact Hv.
Qed.

Lemma load_store_other (m : memory) (a b v : Z) :
  addr32 b <> addr32 a -> load (store m a v) b = load m b.
Proof.
  intros Hne. unfold load, store.
  destruct (Z.eqb_spec (addr32 b) (addr32 a)); [contradiction|reflexivity].
Qed.

Lemma load_range (m : memory) (a : Z) : 0 <= load m a < 2 ^ 32.
Proof. apply Z.mod_pos_bound. reflexivity. Qed.

Lemma load_outside (buffer size : Z) (m0 m : memory) (a : Z) :
  same_outside buffer size m0 m ->
  ~ in_slots buffer size (addr32 a) ->
  load m a = load m0 a.
Proof. intros Hsame Hout. unfold load. now rewrite Hsame. Qed.

Lemma same_outside_store_slot (buffer size depth : Z) (m0 m : memory) (v : Z) :
  0 <= depth < size ->
  same_outside buffer size m0 m ->
  same_outside buffer size m0 (store m (buffer + 4 * depth) v).
Proof.
  intros Hd Hsame a Hout. unfold store.
  destruct (Z.eqb_spec a (addr32 (buffer + 4 * depth))) as [Heq|Hne].
  - exfalso. apply Hout. exists depth. split; [lia|exact Heq].
  - now apply Hsame.
Qed.

Section Chain.

Variables (m0 : memory) (buffer size : Z).
Hypothesis size_small : size <= 2 ^ 30.

(** The loop entered at [depth] leaves the slots below [depth] alone and
    returns at least [depth]. *)
Lemma unwind_keeps_lower (k fuel : nat) :
  forall m depth ra sp why n m',
    0 <= depth ->
    unwind k fuel m buffer size depth ra sp = Returned why n m' ->
    depth <= n
    /\ forall j, 0 <= j < depth ->
         load m' (buffer + 4 * j) = load m (buffer + 4 * j).
Proof.
  induction fuel as [|fuel IH]; intros m depth ra sp why n m' Hd Hret;
    [discriminate|].
  cbn [unwind] in Hret.
  destruct (Z.ltb_spec depth size) as [Hlt|Hge]; cbn [andb] in Hret.
  - destruct (ra =? 0); cbn [negb] in Hret.
    + injection Hret as _ <- <-. split; [lia|reflexivity].
    + assert (Hkeep : forall j, 0 <= j < depth ->
                load (store m (buffer + 4 * depth) ra) (buffer + 4 * j)
                = load m (buffer + 4 * j)).
      { intros j Hj. apply load_store_other. intros Heq.
        apply slot_distinct in Heq; lia. }
      destruct (scan_backward k _ ra 0 0) as [[ro ss|]|]; [| |discriminate].
      * apply IH in Hret; [|lia]. destruct Hret as [Hn Hlow].
        split; [lia|]. intros j Hj. rewrite Hlow by lia. now apply Hkeep.
      * injection Hret as _ <- <-. split; [lia|exact Hkeep].
  - injection Hret as _ <- <-. split; [lia|reflexivity].
Qed.

Lemma unwind_follows_chain (k kf fuel : nat) :
  forall m depth ra sp callers why n m',
    0 <= depth ->
    same_outside buffer size m0 m ->
    0 < ra < 2 ^ 32 ->
    Forall (fun r => r <> 0) callers ->
    call_chain m0 buffer size k ra sp callers ->
    unwind kf fuel m buffer size depth ra sp = Returned why n m' ->
    Z.min size (depth + 1 + Z.of_nat (List.length callers)) <= n
    /\ (forall i r, nth_error (ra :: callers) i = Some r ->
          depth + Z.of_nat i < size ->
          load m' (buffer + 4 * (depth + Z.of_nat i)) = r)
    /\ (forall j, 0 <= j < depth ->
          load m' (buffer + 4 * j) = load m (buffer + 4 * j)).
Proof.
  induction fuel as [|fuel IH];
    intros m depth ra sp callers why n m' Hd Hsame Hra Hnz Hchain Hret;
    [discriminate|].
  cbn [unwind] in Hret.
  destruct (Z.ltb_spec depth size) as [Hlt|Hge]; cbn [andb] in Hret.
  2:{ injection Hret as _ <- <-. split; [lia|].
      split; [intros i r _ Hi; lia|reflexivity]. }
  destruct (Z.eqb_spec ra 0) as [|_]; [lia|]. cbn [negb] in Hret.
  set (m1 := store m (buffer + 4 * depth) ra) in *.
  assert (Hsame1 : same_outside buffer size m0 m1)
    by (apply same_outside_store_slot; [lia|exact Hsame]).
  assert (Hkeep : forall j, 0 <= j < depth ->
            load m1 (buffer + 4 * j) = load m (buffer + 4 * j)).
  { intros j Hj. apply load_store_other. intros Heq.
    apply slot_distinct in Heq; lia. }
  assert (Htop : load m1 (buffer + 4 * depth) = ra)
    by (apply load_store_same; lia).
  destruct callers as [|ra' rest].
  - (* nothing is known beyond this frame *)
    assert (Hrest : depth + 1 <= n
                    /\ forall j, 0 <= j < depth + 1 ->
                         load m' (buffer + 4 * j) = load m1 (buffer + 4 * j)).
    { destruct (scan_backward kf m1 ra 0 0) as [[ro ss|]|]; [| |discriminate].
      - apply (unwind_keeps_lower kf fuel) in Hret; [exact Hret|lia].
      - injection Hret as _ <- <-. split; [lia|reflexivity]. }
    destruct Hrest as [Hn Hlow]. cbn [List.length]. split; [lia|]. split.
    + intros [|i] r Hnth Hi; cbn [nth_error] in Hnth.
      * injection Hnth as <-. rewrite Z.add_0_r, Hlow by lia. exact Htop.
      * destruct i; discriminate.
    + intros j Hj. rewrite Hlow by lia. now apply Hkeep.
  - (* the scan meets the caller's frame *)
    cbn [call_chain] in Hchain.
    destruct Hchain as (ro & ss & Hlink & Hnext).
    destruct (Hlink m1 Hsame1) as [Hscan Hslot].
    destruct (scan_backward kf m1 ra 0 0) as [r|] eqn:Hkf; [|discriminate].
    assert (Hr : r = ScanFound ro ss).
    { pose proof (scan_backward_mono kf (Nat.max k kf) m1 ra 0 0 r Hkf
                    (Nat.le_max_r k kf)) as H1.
      pose proof (scan_backward_mono k (Nat.max k kf) m1 ra 0 0 _ Hscan
                    (Nat.le_max_l k kf)) as H2.
      congruence. }
    subst r. rewrite Hslot in Hret.
    apply Forall_cons_iff in Hnz. destruct Hnz as [Hnz' Hnz].
    assert (Hra' : 0 < ra' < 2 ^ 32).
    { pose proof (load_range m1 (sp + ro)). rewrite Hslot in H. lia. }
    destruct (IH m1 (depth + 1) ra' (wrap_unsigned 32 (sp + ss)) rest why n m')
      as (Hn & Hfr & Hlow); try assumption; try lia.
    cbn [List.length]. split; [lia|]. split.
    + intros [|i] r Hnth Hi.
      * cbn [nth_error] in Hnth. injection Hnth as <-.
        rewrite Z.add_0_r, Hlow by lia. exact Htop.
      * cbn [nth_error] in Hnth.
        replace (depth + Z.of_nat (S i)) with (depth + 1 + Z.of_nat i) by lia.
        apply Hfr; [exact Hnth|lia].
    + intros j Hj. rewrite Hlow by lia. now apply Hkeep.
Qed.

End Chain.

(** Most recent call first: when the memory shows a chain of callers,
    each frame's scan meeting its frame size and the slot of the saved
    return address, a capture that returns holds at least
    [min (size, 1 + callers)] addresses, [buffer[0]] is the return address
    of the call itself and [buffer[i]] the one of the [i]-th caller up the
    chain. *)
Theorem capture_follows_call_chain (m : memory) (entry ra sp buffer size : Z)
    (k fuel : nat) (s : Z) (callers : list Z) (why : stop_reason) (n : Z)
    (m' : memory) :
  0 < size <= 2 ^ 30 ->
  buffer <> 0 ->
  0 < ra < 2 ^ 32 ->
  Forall (fun r => r <> 0) callers ->
  scan_forward k m entry = Some s ->
  call_chain m buffer size k ra (wrap_unsigned 32 (sp + s)) callers ->
  backtrace_mips32 fuel m entry ra sp buffer size = Returned why n m' ->
  Z.min size (1 + Z.of_nat (List.length callers)) <= n
  /\ forall i r, nth_error (ra :: callers) i = Some r ->
       Z.of_nat i < size ->
       load m' (buffer + 4 * Z.of_nat i) = r.
Proof.
  intros Hsize Hbuf Hra Hnz Hfwd Hchain Hret.
  unfold backtrace_mips32 in Hret.
  destruct (Z.leb_spec size 0); [lia|].
  destruct (Z.eqb_spec buffer 0); [contradiction|]. cbn [orb] in Hret.
  destruct (scan_forward fuel m entry) as [s'|] eqn:Hf; [|discriminate].
  assert (Hs : s' = s).
  { pose proof (scan_forward_mono fuel (Nat.max k fuel) m entry s' Hf
                  (Nat.le_max_r k fuel)) as H1.
    pose proof (scan_forward_mono k (Nat.max k fuel) m entry s Hfwd
                  (Nat.le_max_l k fuel)) as H2.
    congruence. }
  subst s'.
  destruct (unwind_follows_chain m buffer size (proj2 Hsize) k fuel fuel
              m 0 ra (wrap_unsigned 32 (sp + s)) callers why n m')
    as (Hn & Hfr & _); try assumption; try lia.
  { apply same_outside_refl. }
  split; [lia|]. intros i r Hnth Hi.
  specialize (Hfr i r Hnth). rewrite Z.add_0_l in Hfr. apply Hfr. lia.
Qed.

Lemma chain_memory_outside (a : Z) :
  0 <= a < 0x7fff0000 -> ~ in_slots 0x7fff0000 64 (addr32 a).
Proof.
  intros Ha (i & Hi & Heq). unfold addr32, wrap_unsigned in Heq.
  change (2 ^ 32) with 4294967296 in Heq.
  rewrite !Z.mod_small in Heq by lia. lia.
Qed.

Lemma chain_memory_chain :
  call_chain chain_memory 0x7fff0000 64 3 0x40000c
    (wrap_unsigned 32 (0x7ffe0000 + 40)) [0x400104].
Proof.
  cbn [call_chain]. exists 28, 32. split; [|exact I].
  intros m Hsame.
  assert (Hload : forall a, 0 <= a < 0x7fff0000 ->
                    load m a = load chain_memory a).
  { intros a Ha. apply (load_outside 0x7fff0000 64); [exact Hsame|].
    now apply chain_memory_outside. }
  split.
  - cbn [scan_backward].
    rewrite (Hload 0x40000c), (Hload (0x40000c - 4)),
      (Hload (0x40000c - 4 - 4)) by lia.
    reflexivity.
  - rewrite Hload by (vm_compute; intuition congruence). reflexivity.
Qed.

Lemma capture_follows_call_chain_witness :
  Z.min 64 (1 + Z.of_nat (List.length [0x400104])) <= 2
  /\ forall i r, nth_error [0x40000c; 0x400104] i = Some r ->
       Z.of_nat i < 64 ->
       load (store (store chain_memory (0x7fff0000 + 4 * 0) 0x40000c)
               (0x7fff0000 + 4 * (0 + 1)) 0x400104)
            (0x7fff0000 + 4 * Z.of_nat i) = r.
Proof.
  apply (capture_follows_call_chain chain_memory 0x500000 0x40000c 0x7ffe0000
           0x7fff0000 64 3 8 40 [0x400104] StopSentinel 2).
  - lia.
  - discriminate.
  - lia.
  - repeat constructor; discriminate.
  - reflexivity.
  - exact chain_memory_chain.
  - reflexivity.
Defined.

(** ** The block of strings *)

Lemma write_lines_cursor_grows (c : ElfClass) (array : list Z)
    (infos : list resolution) (last : Z) :
  last <= snd (write_lines c array infos last).
Proof.
  revert infos last. induction array as [|a array IH]; intros infos last;
    [cbn; lia|].
  destruct infos as [|r infos]; cbn [write_lines snd]; [lia|].
  specialize (IH infos (last + (1 + strlen (format_line c a r)))).
  pose proof (strlen_nonneg (format_line c a r)). lia.
Qed.

Lemma write_lines_between (c : ElfClass) (array : list Z)
    (infos : list resolution) (last : Z) :
  Forall (fun e => last <= fst e
                   /\ fst e + (strlen (snd e) + 1)
                      <= snd (write_lines c array infos last))
         (fst (write_lines c array infos last)).
Proof.
  revert infos last. induction array as [|a array IH]; intros infos last;
    [constructor|].
  destruct infos as [|r infos]; cbn [write_lines fst snd]; [constructor|].
  pose proof (strlen_nonneg (format_line c a r)) as Hlen.
  constructor.
  - cbn [fst snd]. split; [lia|].
    pose proof (write_lines_cursor_grows c array infos
                  (last + (1 + strlen (format_line c a r)))). lia.
  - eapply Forall_impl; [|apply IH]. cbn beta. intros e [H1 H2].
    split; [lia|exact H2].
Qed.

(** When the block size [size * sizeof (char * ) + total] is one that
    [size_t] holds (and the addresses are pointers), every string of a
    returned block, with its NUL, lies inside the allocated block and
    behind the table of [size] pointers: no write of the second loop
    touches the table or leaves the block. *)
Theorem strings_inside_block (c : ElfClass) (dladdr : Z -> resolution)
    (malloc : Z -> option Z) (array : list Z) (result : Z)
    (strings : list (Z * string)) :
  Forall (is_pointer c) array ->
  block_fits c (map dladdr array) ->
  backtrace_symbols dladdr malloc c array = Symbols result strings ->
  Forall (fun e =>
            result + Z.of_nat (List.length array) * sizeof_ptr c <= fst e
            /\ fst e + (strlen (snd e) + 1)
               <= result + symbols_request dladdr c array)
         strings.
Proof.
  intros Hptr Hfit Hret.
  apply backtrace_symbols_inv in Hret. subst strings.
  pose proof (assert_holds c dladdr array result Hptr Hfit) as Hend.
  assert (Hreq : symbols_request dladdr c array
                 = wrap_ulong c (Z.of_nat (List.length array) * sizeof_ptr c)
                   + total_presize c (map dladdr array)).
  { unfold symbols_request.
    pose proof (request_exact c _ Hfit) as Hr. rewrite length_map in Hr.
    rewrite Hr, (total_presize_exact c _ Hfit).
    apply wrap_ulong_small. unfold is_pointer, block_fits in *.
    rewrite length_map in Hfit.
    pose proof (presize_sum_nonneg c (map dladdr array)).
    assert (0 <= Z.of_nat (List.length array) * sizeof_ptr c)
      by (destruct c; simpl; lia).
    lia. }
  eapply Forall_impl; [|apply write_lines_between]. cbn beta.
  intros e [H1 H2]. split; [exact H1|]. rewrite Hreq. lia.
Qed.

Lemma strings_inside_block_witness :
  Forall (fun e =>
            0x10000000 + Z.of_nat (List.length sample_array)
                         * sizeof_ptr ELFCLASS32 <= fst e
            /\ fst e + (strlen (snd e) + 1)
               <= 0x10000000
                  + symbols_request sample_dladdr ELFCLASS32 sample_array)
    [(0x1000000c, "./driver_manager(print_stack_trace+0x3c) [0x44afcc]");
     (0x10000040, "/lib/libc.so.0 [0x2ac7b4d4]");
     (0x1000005c, "[0x7fff0000]")].
Proof.
  apply (strings_inside_block ELFCLASS32 sample_dladdr malloc_ok sample_array
           0x10000000).
  - exact sample_array_pointers.
  - exact sample_block_fits.
  - exact sample_strings.
Defined.

(** ** The reporter with symbols, and with a silent logger *)









(** ** Frame capture: no null frame *)

Lemma unwind_frames_nonnull (buffer size : Z) (k fuel : nat) :
  size <= 2 ^ 30 ->
  forall m depth ra sp why n m',
    0 <= depth -> 0 <= ra < 2 ^ 32 ->
    (forall j, 0 <= j < depth -> load m (buffer + 4 * j) <> 0) ->
    unwind k fuel m buffer size depth ra sp = Returned why n m' ->
    forall j, 0 <= j < n -> load m' (buffer + 4 * j) <> 0.
Proof.
  intros Hsize.
  induction fuel as [|fuel IH]; intros m depth ra sp why n m' Hd Hra Hlow Hret;
    [discriminate|].
  cbn [unwind] in Hret.
  destruct (Z.ltb_spec depth size) as [Hlt|Hge]; cbn [andb] in Hret.
  2:{ injection Hret as _ <- <-. exact Hlow. }
  destruct (Z.eqb_spec ra 0) as [|Hnz]; cbn [negb] in Hret.
  { injection Hret as _ <- <-. exact Hlow. }
  assert (Hlow1 : forall j, 0 <= j < depth + 1 ->
            load (store m (buffer + 4 * depth) ra) (buffer + 4 * j) <> 0).
  { intros j Hj. destruct (Z.eq_dec j depth) as [->|Hne].
    - rewrite load_store_same by lia. exact Hnz.
    - rewrite load_store_other; [apply Hlow; lia|].
      intros Heq. apply slot_distinct in Heq; lia. }
  destruct (scan_backward k _ ra 0 0) as [[ro ss|]|]; [| |discriminate].
  - refine (IH _ (depth + 1) _ _ _ _ _ _ (load_range _ _) Hlow1 Hret). lia.
  - injection Hret as _ <- <-. exact Hlow1.
Qed.

(** Every address a capture reports is non-null: the [n] slots it filled
    hold return addresses that were non-null when stored, none of them
    overwritten later, so no reported frame prints as [(nil)]. *)
Theorem captured_frames_nonnull (fuel : nat) (m : memory)
    (entry ra sp buffer size : Z) (why : stop_reason) (n : Z) (m' : memory) :
  size <= 2 ^ 30 ->
  0 <= ra < 2 ^ 32 ->
  backtrace_mips32 fuel m entry ra sp buffer size = Returned why n m' ->
  forall j, 0 <= j < n ->
    load m' (buffer + 4 * j) <> 0
    /\ fmt_p (load m' (buffer + 4 * j)) <> "(nil)".
Proof.
  intros Hsize Hra Hret j Hj.
  assert (Hnz : load m' (buffer + 4 * j) <> 0).
  { unfold backtrace_mips32 in Hret.
    destruct ((size <=? 0) || (buffer =? 0)).
    - injection Hret as _ <- _. lia.
    - destruct (scan_forward fuel m entry) as [s|]; [|discriminate].
      apply (unwind_frames_nonnull buffer size fuel fuel Hsize m 0 ra
               (wrap_unsigned 32 (sp + s)) why n m'); try assumption; lia. }
  split; [exact Hnz|]. unfold fmt_p.
  destruct (Z.eqb_spec (load m' (buffer + 4 * j)) 0); [contradiction|].
  discriminate.
Qed.

Lemma captured_frames_nonnull_witness :
  load (store (store chain_memory (0x7fff0000 + 4 * 0) 0x40000c)
          (0x7fff0000 + 4 * (0 + 1)) 0x400104) (0x7fff0000 + 4 * 1) <> 0
  /\ fmt_p (load (store (store chain_memory (0x7fff0000 + 4 * 0) 0x40000c)
                    (0x7fff0000 + 4 * (0 + 1)) 0x400104)
                 (0x7fff0000 + 4 * 1)) <> "(nil)".
Proof.
  apply (captured_frames_nonnull 8 chain_memory 0x500000 0x40000c 0x7ffe0000
           0x7fff0000 64 StopSentinel 2).
  - vm_compute. congruence.
  - lia.
  - reflexivity.
  - lia.
Defined.

(** ** The level of a message *)

(** The label of the file sink always fills its field of five
    characters. A level that is not exactly the INFO, WARN or ERROR flag,
    a combination of flags for instance, is reported as DEBUG by both
    sinks: the label reads [DEBUG] and the syslog priority is
    [LOG_DEBUG]. *)
Theorem level_reporting (level : Z) :
  String.length (fmt_left5 (get_level_label level)) = 5%nat
  /\ (level <> LOG_LEVEL_INFO -> level <> LOG_LEVEL_WARN ->
      level <> LOG_LEVEL_ERROR ->
        get_level_label level = "DEBUG"
        /\ forall s src line msg,
             exists text,
               emitted (log_to_syslog s level src line msg)
               = (emitted s ++ [Syslog LOG_DEBUG text])%list).
Proof.
  split.
  - unfold get_level_label.
    repeat match goal with
           | |- context [if ?b then _ else _] => destruct b
           end; reflexivity.
  - intros Hi Hw He. split.
    + unfold get_level_label.
      destruct (Z.eqb_spec level LOG_LEVEL_DEBUG); [reflexivity|].
      destruct (Z.eqb_spec level LOG_LEVEL_INFO); [contradiction|].
      destruct (Z.eqb_spec level LOG_LEVEL_WARN); [contradiction|].
      destruct (Z.eqb_spec level LOG_LEVEL_ERROR); [contradiction|].
      reflexivity.
    + intros s src line msg. eexists. unfold log_to_syslog.
      destruct (Z.eqb_spec level LOG_LEVEL_DEBUG); [reflexivity|].
      destruct (Z.eqb_spec level LOG_LEVEL_INFO); [contradiction|].
      destruct (Z.eqb_spec level LOG_LEVEL_WARN); [contradiction|].
      destruct (Z.eqb_spec level LOG_LEVEL_ERROR); [contradiction|].
      reflexivity.
Qed.

(** ** Further instances *)

Lemma timer_set_outcome_witness :
  (timer_valid
     (fst (timer_set ELFCLASS32 sample_clock (Some (mkTimespec 100 0))
             sample_logger (mkTimer 3 (mkTimespec 1 0) (mkTimespec 2 0)) (-5)))
   = 0
   /\ emitted
        (snd (timer_set ELFCLASS32 sample_clock (Some (mkTimespec 100 0))
                sample_logger (mkTimer 3 (mkTimespec 1 0) (mkTimespec 2 0))
                (-5)))
      = [FileWrite 2 "2007-01-01 00:00:00.000 [ERROR] [dm] timer.c:48: ";
         FileWrite 2 "timer_set(): negative time interval: -5";
         FileWrite 2 LF])
  /\ (snd (timer_set ELFCLASS32 sample_clock
             (Some (mkTimespec 100 900000000)) sample_logger
             (mkTimer 2 (mkTimespec 1 0) (mkTimespec 2 0)) 1250)
      = sample_logger
      /\ timer_valid
           (fst (timer_set ELFCLASS32 sample_clock
                   (Some (mkTimespec 100 900000000)) sample_logger
                   (mkTimer 2 (mkTimespec 1 0) (mkTimespec 2 0)) 1250))
         = 1
      /\ to_ns
           (deadline
              (fst (timer_set ELFCLASS32 sample_clock
                      (Some (mkTimespec 100 900000000)) sample_logger
                      (mkTimer 2 (mkTimespec 1 0) (mkTimespec 2 0)) 1250)))
         = to_ns (mkTimespec 100 900000000) + 1250 * 1000000).
Proof.
  split.
  - destruct (timer_set_outcome ELFCLASS32 sample_clock
                (Some (mkTimespec 100 0)) (mkTimespec 100 0) sample_logger
                (mkTimer 3 (mkTimespec 1 0) (mkTimespec 2 0)) (-5))
      as [Hneg _].
    destruct (Hneg ltac:(lia)) as (_ & _ & _ & _ & _ & _ & Hvalid & Hlog).
    split; [exact Hvalid|]. rewrite Hlog. reflexivity.
  - destruct (timer_set_outcome ELFCLASS32 sample_clock
                (Some (mkTimespec 100 900000000)) (mkTimespec 100 900000000)
                sample_logger (mkTimer 2 (mkTimespec 1 0) (mkTimespec 2 0))
                1250)
      as [_ Hset].
    destruct Hset as (Hlog & _ & _ & Hvalid & _ & Hdeadline);
      [lia
      |vm_compute; intuition congruence
      |vm_compute; congruence
      |vm_compute; congruence
      |].
    split; [exact Hlog|]. split; [exact Hvalid|exact Hdeadline].
Defined.

Lemma timer_init_destroy_witness :
  timer_init sample_clock sample_logger TIMER_INITIALIZER
  = (TIMER_INITIALIZER,
     log_log (sample_clock sample_logger) sample_logger LOG_LEVEL_WARN
       "timer.c" 26 "timer_init(): timer is already initialized").
Proof.
  destruct (timer_init_destroy sample_clock sample_logger sample_logger
              TIMER_INITIALIZER) as (_ & Hagain & _).
  apply Hagain. discriminate.
Defined.

Lemma locked_operations_witness :
  timer_valid_locked sample_clock sample_logger
    (mkLockedTimer (mkTimer 1 (mkTimespec 0 0) (mkTimespec 9 0))
                   MutexUninitialized)
  = (mkLockedTimer (mkTimer 1 (mkTimespec 0 0) (mkTimespec 9 0))
                   MutexUninitialized,
     LOGE sample_clock sample_logger 165 (cant_lock "timer_valid_locked"),
     -1).
Proof.
  destruct (locked_operations ELFCLASS32 sample_clock (mkTimespec 1 0) None
              sample_logger
              (mkLockedTimer (mkTimer 1 (mkTimespec 0 0) (mkTimespec 9 0))
                             MutexUninitialized) 0) as [Hun _].
  destruct (Hun eq_refl) as (_ & _ & _ & Hvalid & _). exact Hvalid.
Defined.

Lemma scans_return_usable_frames_witness :
  0 < 28 < 2 ^ 32 /\ 0 < 32 <= 32768.
Proof.
  destruct (scans_return_usable_frames 3 chain_memory 0x40000c)
    as (_ & Hback & _).
  apply (Hback 28 32). reflexivity.
Defined.

Lemma measure_print_routing_witness :
  console
    (fst (measure_print ELFCLASS32 sample_clock (Some (mkTimespec 12 100000000))
            (measure_start (Some (mkTimespec 10 900000000)) measure_initial)
            (mkLogState Config_initial false []) "some_routine()"))
  = [Printf ("DM: some_routine() took 1.200000000 seconds" ++ LF)].
Proof.
  destruct (measure_print_routing ELFCLASS32 sample_clock
              (Some (mkTimespec 12 100000000))
              (measure_start (Some (mkTimespec 10 900000000)) measure_initial)
              (mkLogState Config_initial false []) "some_routine()")
    as (_ & Hterminal & _).
  destruct (Hterminal (or_introl eq_refl)) as [Hconsole _].
  rewrite Hconsole. reflexivity.
Defined.

Lemma level_reporting_witness :
  get_level_label (Z.lor LOG_LEVEL_WARN LOG_LEVEL_ERROR) = "DEBUG".
Proof.
  destruct (level_reporting (Z.lor LOG_LEVEL_WARN LOG_LEVEL_ERROR))
    as [_ Hother].
  destruct Hother as [Hlabel _]; [discriminate..|exact Hlabel].
Defined.
